(** * BioPythonGraphics: region diagrams of gene neighbourhoods

    A shallow embedding of [src/lib/BioPythonGraphics.py]: the assembly of
    SeqFeature lists for a gene or a TBLASTN hit, the extent of a region,
    the centering arithmetic of [make_region_drawing], and the colour
    utilities [RGB_to_hex] and [colormap].

    Conventions of the embedding.
    - Python integers are [Z]; Python floats are the kernel's binary64
      floats ([PrimFloat]), so that every float operation of the source is
      the IEEE operation Python performs.
    - The module is Python 2 code: [/] between two integers is floor
      division, written [Z.div] here.
    - A Python exception is the name of its class; a computation that may
      raise returns a [result].
    - A dict is a [gmap].
    - The database cursor and the helper modules the file imports
      (ClusterFuncs, TreeFuncs, sanitizeString) are not part of this file;
      they are the fields of the record [Db]. *)

From Stdlib Require Import ZArith Ascii String Floats Lia.
From stdpp Require Import base option list sorting gmap strings pretty.

Set Warnings "-inexact-float".

Local Open Scope Z_scope.

(** ** The Python runtime *)

Module Py.

Definition exn := string.

Definition ValueError : exn := "ValueError".
Definition KeyError : exn := "KeyError".
Definition IndexError : exn := "IndexError".
Definition UnboundLocalError : exn := "UnboundLocalError".
Definition ZeroDivisionError : exn := "ZeroDivisionError".
Definition OverflowError : exn := "OverflowError".

Inductive result (A : Type) : Type :=
| Ok (a : A)
| Raise (e : exn).
Global Arguments Ok {A} a.
Global Arguments Raise {A} e.

Global Instance result_ret : MRet result := fun A a => Ok a.
Global Instance result_bind : MBind result := fun A B k r =>
  match r with
  | Ok a => k a
  | Raise e => Raise e
  end.

Global Instance result_eq_dec `{EqDecision A} : EqDecision (result A).
Proof. solve_decision. Defined.

(** [raises e r]: the computation [r] ended by raising exactly [e]. *)
Definition raises {A} (e : exn) (r : result A) : bool :=
  match r with
  | Raise e' => bool_decide (e' = e)
  | Ok _ => false
  end.

Definition returns {A} (r : result A) : bool :=
  match r with
  | Ok _ => true
  | Raise _ => false
  end.

(** [max(xs)] and [min(xs)] over a sequence: ValueError when it is empty. *)
Definition max (xs : list Z) : result Z :=
  match xs with
  | [] => Raise ValueError
  | x :: xs' => Ok (foldl Z.max x xs')
  end.

Definition min (xs : list Z) : result Z :=
  match xs with
  | [] => Raise ValueError
  | x :: xs' => Ok (foldl Z.min x xs')
  end.

(** [zip] applied to the unpacked [rows], for rows that are pairs: the
    tuple of first components and the tuple of second components, and
    nothing for no row. *)
Definition zip_star {A} (rows : list (A * A)) : list (list A) :=
  match rows with
  | [] => []
  | _ => [rows.*1; rows.*2]
  end.

(** [a, b = xs]: ValueError unless [xs] has exactly two items. *)
Definition unpack2 {A} (xs : list A) : result (A * A) :=
  match xs with
  | [a; b] => Ok (a, b)
  | _ => Raise ValueError
  end.

(** [xs[i]]: IndexError out of range. *)
Definition index {A} (xs : list A) (i : nat) : result A :=
  match xs !! i with
  | Some x => Ok x
  | None => Raise IndexError
  end.

(** [d[k]]: KeyError when the key is missing. *)
Definition getitem `{Countable K} {V} (d : gmap K V) (k : K) : result V :=
  match d !! k with
  | Some v => Ok v
  | None => Raise KeyError
  end.

(** [dict(pairs)]: a later pair overrides an earlier one with its key. *)
Definition dict `{Countable K} {V} (pairs : list (K * V)) : gmap K V :=
  foldl (fun d kv => <[kv.1 := kv.2]> d) ∅ pairs.

(** [range(n)]. *)
Definition range (n : Z) : list Z := seqZ 0 n.

(** [zip(a, b, c)]: as long as the shortest argument. *)
Definition zip3 {A B C} (a : list A) (b : list B) (c : list C)
  : list (A * B * C) :=
  zip (zip a b) c.

(** [itertools.product(a, b)]: the last argument varies fastest. *)
Definition product {A B} (a : list A) (b : list B) : list (A * B) :=
  x ← a; pair x <$> b.

(** A [for] loop over [xs] whose body updates the loop state [s] and may
    raise. *)
Fixpoint for_ {A S} (xs : list A) (s : S) (body : S → A → result S)
  : result S :=
  match xs with
  | [] => Ok s
  | x :: xs' => s' ← body s x; for_ xs' s' body
  end.

(** Reading a local variable that no assignment has bound. *)
Definition local {A} (v : option A) : result A :=
  match v with
  | Some a => Ok a
  | None => Raise UnboundLocalError
  end.

(** [numpy.unique]: the sorted distinct values of an array (the array is
    sorted, then every item equal to its predecessor is dropped).  This is
    what numpy computes on an array of 64-bit integers, the array it makes
    of a list of ids that all lie within [int64]; a list that mixes a
    negative id with an id of 2^63 or more becomes an array of floats, in
    which neighbouring ids merge.  The statements about which id has which
    entry of the colour map take the ids within [int64]. *)
Fixpoint drop_repeats (xs : list Z) : list Z :=
  match xs with
  | [] => []
  | x :: xs' =>
      match xs' with
      | [] => [x]
      | y :: _ => if bool_decide (x = y) then drop_repeats xs'
                  else x :: drop_repeats xs'
      end
  end.

Definition numpy_unique (xs : list Z) : list Z :=
  drop_repeats (merge_sort Z.le xs).

(** The integers of numpy's dtype int64. *)
Definition int64 (k : Z) : Prop := - 2 ^ 63 ≤ k < 2 ^ 63.

Global Instance int64_dec k : Decision (int64 k).
Proof. unfold int64. apply _. Defined.

(** *** Floats *)

(** The conversion of an integer to the nearest float (ties to even). *)
Definition float_of_int (z : Z) : float :=
  SF2Prim (binary_normalize prec emax z 0 false).

(** [float(z)]: OverflowError when the integer is beyond the floats. *)
Definition to_float (z : Z) : result float :=
  let x := float_of_int z in
  if is_infinity x then Raise OverflowError else Ok x.

(** [int(x)] of a float: truncation toward zero. *)
Definition to_int (x : float) : result Z :=
  match Prim2SF x with
  | S754_zero _ => Ok 0
  | S754_finite s m e => Ok (cond_Zopp s (Z.shiftl (Z.pos m) e))
  | S754_infinity _ => Raise OverflowError
  | S754_nan => Raise ValueError
  end.

(** [int(math.ceil(x))]. *)
Definition int_ceil (x : float) : result Z :=
  match Prim2SF x with
  | S754_zero _ => Ok 0
  | S754_finite s m e => Ok (- Z.shiftl (- cond_Zopp s (Z.pos m)) e)
  | S754_infinity _ => Raise OverflowError
  | S754_nan => Raise ValueError
  end.

(** [math.sqrt(x)]: ValueError (math domain error) below zero. *)
Definition math_sqrt (x : float) : result float :=
  if PrimFloat.ltb x 0 then Raise ValueError else Ok (PrimFloat.sqrt x).

(** [a / b] with a float [a] and an integer [b]. *)
Definition truediv (a : float) (b : Z) : result float :=
  if bool_decide (b = 0) then Raise ZeroDivisionError
  else b' ← to_float b; Ok (a / b')%float.

(** The hexadecimal digits of a natural number, in lower case. *)
Definition hex_char (d : Z) : ascii :=
  match d with
  | 0 => "0" | 1 => "1" | 2 => "2" | 3 => "3" | 4 => "4" | 5 => "5"
  | 6 => "6" | 7 => "7" | 8 => "8" | 9 => "9" | 10 => "a" | 11 => "b"
  | 12 => "c" | 13 => "d" | 14 => "e" | _ => "f"
  end%char.

Fixpoint hex_go (fuel : nat) (n : Z) (acc : string) : string :=
  match fuel with
  | O => acc
  | S fuel' =>
      let acc' := String (hex_char (n `mod` 16)) acc in
      if bool_decide (n < 16) then acc' else hex_go fuel' (n `div` 16) acc'
  end.

Definition hex (n : Z) : string := hex_go (S (Z.to_nat (Z.log2 n))) n "".

(** ['%02x' % z]: sign, then the digits padded with zeros to a width of
    two characters. *)
Definition format_02x (z : Z) : string :=
  if bool_decide (z < 0) then "-" +:+ hex (- z)
  else if bool_decide (z < 16) then "0" +:+ hex z
  else hex z.



(** *** Standard error

    A computation that may write lines on [sys.stderr] before it returns
    or raises: what it wrote, and how it ended. *)
Definition io (A : Type) : Type := list string * result A.

Global Instance io_ret : MRet io := fun A a => ([], Ok a).
Global Instance io_bind : MBind io := fun A B k m =>
  match m.2 with
  | Ok a => (m.1 ++ (k a).1, (k a).2)
  | Raise e => (m.1, Raise e)
  end.

Definition lift {A} (r : result A) : io A := ([], r).
Definition stderr_write (line : string) : io unit := ([line], Ok tt).

Definition newline : string := String "010"%char "".

End Py.
Import Py.

(** ** Bio.SeqFeature *)

(** [FeatureLocation(start, end)].  A start after the end is a location
    like any other here, as the source has it ("some are reversed", says
    [regionlength], and the feature of a hit keeps start and stop as they
    come); later versions of the library refuse such a location. *)
Record FeatureLocation := { loc_start : Z; loc_end : Z }.

Module SeqFeature.
Record t := mk {
  location : FeatureLocation;
  strand : Z;
  id : string;
  qualifiers : gmap string Z;
}.

(** [SeqFeature(location, strand=strand, id=id)]: the strand is stored on
    the location, whose setter raises ValueError unless the strand is one
    of +1, -1, 0 and None (which the callers in this file, who pass the
    result of [int], never give). *)
Definition new (location : FeatureLocation) (strand : Z) (id : string)
  : result t :=
  if bool_decide (strand ∈ [1; -1; 0]) then Ok (mk location strand id ∅)
  else Raise ValueError.
End SeqFeature.
Abbreviation SeqFeature := SeqFeature.t.

Global Instance FeatureLocation_eq_dec : EqDecision FeatureLocation.
Proof. solve_decision. Defined.
Global Instance SeqFeature_eq_dec : EqDecision SeqFeature.
Proof. solve_decision. Defined.

(** ** Drawing functions: the extent of a region *)

Definition regionlength (seqfeatures : list SeqFeature) : result (Z * Z) :=
  let location :=
    (fun loc => (loc_start (SeqFeature.location loc),
                 loc_end (SeqFeature.location loc))) <$> seqfeatures in
  '(starts, ends) ← unpack2 (zip_star location);
  (* have to compare both, as some are reversed *)
  max_starts ← Py.max starts;
  max_ends ← Py.max ends;
  let start := Z.max max_starts max_ends in
  min_starts ← Py.min starts;
  min_ends ← Py.min ends;
  let end_ := Z.min min_starts min_ends in
  Ok (start, end_).

(** The coordinates of a feature: its start and its end. *)
Definition coords (f : SeqFeature) : list Z :=
  [loc_start (SeqFeature.location f); loc_end (SeqFeature.location f)].


(** ** The database and the helper modules

    The rows of [getGeneInfo] are read at the positions 0 (gene id), 5
    (start), 6 (stop) and 8 (strand); the rows of [getGeneNeighborhoods] at
    the positions 1 (gene id) and 8 (cluster id).  The columns the source
    passes through [int(...)] are carried as the integers they denote, and
    so are the coordinates [splitTblastn] extracts from a TBLASTN id. *)

Record GeneInfo := { gi0 : string; gi5 : Z; gi6 : Z; gi8 : Z }.
Record Neighbor := { nb1 : string; nb8 : Z }.

(** A cluster run: the tuple (clusterid, runid). *)
Definition clusterrun : Type := string * string.

Record Db := {
  getGeneInfo : list string → result (list GeneInfo);
  (** The gene name is [None] where the caller passes Python's None. *)
  getGeneNeighborhoods : option string → clusterrun → result (list Neighbor);
  getGenesInRegion : string → Z → Z → result (list string);
  getSanitizedContigList : result (gmap string string);
  splitTblastn : string → result (string * Z * Z);
  sanitizeString : string → bool → string;
}.

(** ** Functions for making SeqFeature objects *)

Definition set_qualifier (feature : SeqFeature) (key : string) (v : Z)
  : SeqFeature :=
  SeqFeature.mk (SeqFeature.location feature) (SeqFeature.strand feature)
    (SeqFeature.id feature) (<[key := v]> (SeqFeature.qualifiers feature)).

Definition makeSeqFeature (geneid : string) (cur : Db) : result SeqFeature :=
  geneinfo ← getGeneInfo cur [geneid];
  geneinfo ← index geneinfo 0;
  let start := gi5 geneinfo in
  let stop := gi6 geneinfo in
  let strand := gi8 geneinfo in
  feature ← SeqFeature.new (Build_FeatureLocation start stop) strand geneid;
  (* This can be overwritten by other functions but we need a placeholder. *)
  Ok (set_qualifier feature "cluster_id" (-1)).

Definition makeSeqFeaturesForGeneNeighbors
    (genename : option string) (clusterrunid : clusterrun) (cur : Db)
  : result (list SeqFeature) :=
  outdata ← getGeneNeighborhoods cur genename clusterrunid;
  let seqfeatures := [] in
  for_ outdata seqfeatures (fun seqfeatures neargene =>
    feature ← makeSeqFeature (nb1 neargene) cur;
    let feature := set_qualifier feature "cluster_id" (nb8 neargene) in
    Ok (seqfeatures ++ [feature])).

(** The SeqFeature built for the TBLASTN hit itself.  Its strand is +1 or
    -1, which the constructor accepts ([tblastn_seqfeature_new]). *)
Definition tblastn_seqfeature (tblastn_id : string) (start stop : Z)
  : SeqFeature :=
  let strand := if bool_decide (start < stop) then 1 else -1 in
  let tblastn_feature :=
    SeqFeature.mk (Build_FeatureLocation start stop) strand tblastn_id ∅ in
  set_qualifier tblastn_feature "cluster_id" (-1).

Definition no_neighbors_warning (tblastn_id : string) (N : Z) (contig : string)
  : string :=
  "WARNING: No neighboring genes found for TBLASTN hit " +:+ tblastn_id
  +:+ " within " +:+ pretty N +:+ " nucleotides in contig " +:+ contig
  +:+ newline.

(** The gene closest to the hit: the loop state is (minlen, mingene). *)
Definition closest_gene (start stop N : Z) (neighboring_geneinfo : list GeneInfo)
  : Z * option string :=
  foldl (fun '(minlen, mingene) geneinfo =>
    let genestart := gi5 geneinfo in
    let geneend := gi6 geneinfo in
    let distance :=
      Z.min (Z.min (Z.abs (genestart - start)) (Z.abs (geneend - start)))
            (Z.min (Z.abs (genestart - stop)) (Z.abs (geneend - stop))) in
    if bool_decide (distance < minlen) then (distance, Some (gi0 geneinfo))
    else (minlen, mingene))
    (N, None) neighboring_geneinfo.

Definition makeSeqObjectsForTblastnNeighbors
    (tblastn_id : string) (clusterrunid : clusterrun) (cur : Db) (N : Z)
  : io (list SeqFeature) :=
  sanitizedToNot ← lift (getSanitizedContigList cur);
  (* The tBLASTn ID holds information on where the hit was located. *)
  '(contig, start, stop) ← lift (splitTblastn cur tblastn_id);
  let contig := default contig (sanitizedToNot !! contig) in
  (* Create a seq object for the TBLASTN hit itself *)
  let tblastn_feature := tblastn_seqfeature tblastn_id start stop in
  (* Find the neighboring genes. *)
  neighboring_genes ← lift (getGenesInRegion cur contig (start - N) (stop + N));
  if bool_decide (length neighboring_genes = 0%nat) then
    _ ← stderr_write (no_neighbors_warning tblastn_id N contig);
    mret [tblastn_feature]
  else
    neighboring_geneinfo ← lift (getGeneInfo cur neighboring_genes);
    let '(minlen, mingene) := closest_gene start stop N neighboring_geneinfo in
    neighboring_features ←
      lift (makeSeqFeaturesForGeneNeighbors mingene clusterrunid cur);
    (* Add the TBLASTN itself and return it. *)
    mret (neighboring_features ++ [tblastn_feature]).

(** The default of the parameter [N]. *)
Definition N_default : Z := 200000.


(** ** Drawing functions: the region drawing *)

Inductive border := white | red.

(** One call of [gd_feature_set.add_feature]. *)
Record Arrow (C : Type) := {
  arrow_feature : SeqFeature;
  arrow_name : string;
  arrow_color : C;
  arrow_border : border;
  arrow_label : bool;
}.
Arguments Build_Arrow {C}.

(** The centering arithmetic, with every intermediate value. *)
Record Layout := {
  lay_start : Z;
  lay_end : Z;
  pagew_px : Z;
  midcentergene : Z;
  l2mid : Z;
  r2mid : Z;
  roffset : float;
  loffset : float;
  xl : float;
  xr : float;
}.

(** What [make_region_drawing] leaves behind: the arrows added, the
    arguments of [gd_diagram.draw], the file written, and whether the file
    was rotated by 180 degrees. *)
Record Drawing (C : Type) := {
  arrows : list (Arrow C);
  layout : Layout;
  imgfileloc : string;
  rotated : bool;
}.
Arguments Build_Drawing {C}.
Arguments arrows {C}.
Arguments layout {C}.
Arguments imgfileloc {C}.
Arguments rotated {C}.

Definition scale : Z := 20.

Definition region_layout (seqfeatures : list SeqFeature)
    (center : option (Z * Z * Z)) (maxwidth : Z) : result Layout :=
  '(start, end_) ← regionlength seqfeatures;
  let pagew_px := maxwidth `div` scale in
  (* offset so start of gene of interest lines up in all the figures *)
  '(centerdstart, centerend, _) ← local center;
  let midcentergene :=
    Z.abs (centerend - centerdstart) `div` 2 + Z.min centerdstart centerend in
  let l2mid := Z.abs (midcentergene - start) in
  let r2mid := Z.abs (midcentergene - end_) in
  roffset ← to_float (pagew_px `div` 2 - l2mid `div` scale);
  loffset ← to_float (pagew_px `div` 2 - r2mid `div` scale);
  xl ← truediv loffset pagew_px;
  xr ← truediv roffset pagew_px;
  Ok (Build_Layout start end_ pagew_px midcentergene l2mid r2mid
        roffset loffset xl xr).

(** The body of the loop that builds the arrows.  The loop state is the
    center gene's (start, end, strand) once an iteration has bound them,
    and the arrows added so far. *)
Definition add_feature {C} (getcolor : gmap Z C) (centergenename : string)
    (label : bool) (state : option (Z * Z * Z) * list (Arrow C))
    (feature : SeqFeature) : result (option (Z * Z * Z) * list (Arrow C)) :=
  let '(center, gd_feature_set) := state in
  let bordercol := white in
  let '(bordercol, center) :=
    if bool_decide (SeqFeature.id feature = centergenename) then
      (red, Some (loc_start (SeqFeature.location feature),
                  loc_end (SeqFeature.location feature),
                  SeqFeature.strand feature))
    else (bordercol, center) in
  cluster_id ← getitem (SeqFeature.qualifiers feature) "cluster_id";
  color ← getitem getcolor cluster_id;
  Ok (center,
      gd_feature_set ++
        [Build_Arrow feature (pretty cluster_id) color bordercol label]).

Definition make_region_drawing {C} (cur : Db)
    (seqfeatures : list SeqFeature) (getcolor : gmap Z C)
    (centergenename : string) (maxwidth : Z) (label : bool)
  : result (Drawing C) :=
  let imgfileloc :=
    "/tmp/" +:+ sanitizeString cur centergenename false +:+ ".png" in
  (* Build arrow objects for all of our features. *)
  '(center, gd_feature_set) ←
    for_ seqfeatures (None, []) (add_feature getcolor centergenename label);
  lay ← region_layout seqfeatures center maxwidth;
  '(_, _, centerdstrand) ← local center;
  (* flip for reversed genes *)
  Ok (Build_Drawing gd_feature_set lay imgfileloc
        (bool_decide (centerdstrand = -1))).

(** ** Other utilities *)

Abbreviation RGB := (float * float * float)%type.

Definition RGB_to_hex (RGBlist : list RGB) : result (list string) :=
  let n := fun x => to_int (x * 255)%float in
  RGB256 ← mapM (fun '(r, g, b) =>
                   r ← n r; g ← n g; b ← n b; Ok (r, g, b)) RGBlist;
  let colors :=
    (fun '(r, g, b) => "#" +:+ format_02x r +:+ format_02x g +:+ format_02x b)
      <$> RGB256 in
  Ok colors.

(** [colorsys.hsv_to_rgb] of the Python standard library. *)
Definition hsv_to_rgb (h s v : float) : result RGB :=
  if PrimFloat.eqb s 0 then Ok (v, v, v)
  else
    i ← to_int (h * 6)%float;
    let f := (h * 6 - float_of_int i)%float in
    let p := (v * (1 - s))%float in
    let q := (v * (1 - s * f))%float in
    let t := (v * (1 - s * (1 - f)))%float in
    let i := i `mod` 6 in
    Ok (match i with
        | 0 => (v, t, p)
        | 1 => (q, v, p)
        | 2 => (p, v, t)
        | 3 => (p, q, v)
        | 4 => (t, p, v)
        | _ => (v, p, q)
        end).

(** The colours [colormap] generates for [N] values on a grid of [perm]
    hues by [perm] saturations. *)
Definition generate_RGB (perm N : Z) : result (list RGB) :=
  (* need offset, as humans can't tell colors that are unsaturated apart *)
  let H := (fun x => float_of_int x * 1 / float_of_int perm)%float
             <$> range perm in
  let S := (fun x => float_of_int x * 1 / float_of_int perm + 0.2)%float
             <$> range perm in
  (* we will use this to truncate at correct length *)
  let V := replicate (Z.to_nat N) 0.7%float in
  (* Create all combinations of our colors. *)
  let HS := product H S in
  '(H, S) ← unpack2 (zip_star HS);
  let HSV := zip3 H S V in
  mapM (fun '(h, s, v) => hsv_to_rgb h s v) HSV.

Definition colormap (valuelist : list Z) : result (gmap Z RGB) :=
  let values := numpy_unique valuelist in
  let N := Z.of_nat (length values) in
  (* we will vary in 2 dimensions, so this is how many steps in each *)
  root ← math_sqrt (float_of_int N);
  perm ← int_ceil root;
  RGB ← generate_RGB perm N;
  let colorlookup := dict (zip values (take (Z.to_nat N) RGB)) in
  Ok colorlookup.


(** ** Notions used in the statements *)

(** Error kinds that the specification names and the source has no class
    for. *)
Definition EmptyInputError : exn := "EmptyInputError".
Definition CenterFeatureNotFoundError : exn := "CenterFeatureNotFoundError".

(** The feature carries a cluster id that the colour map knows. *)
Definition colored {C} (getcolor : gmap Z C) (feature : SeqFeature) : bool :=
  match SeqFeature.qualifiers feature !! "cluster_id" with
  | Some cluster_id => bool_decide (is_Some (getcolor !! cluster_id))
  | None => false
  end.

(** The specification's reading of [int] in [RGB_to_hex]: each channel is
    round(channel × 255), the nearest integer (halves away from zero, as
    Python 2's [round]). *)
Definition round_nearest (x : float) : result Z :=
  match Prim2SF x with
  | S754_zero _ => Ok 0
  | S754_finite s m e =>
      Ok (cond_Zopp s ((Z.shiftl (2 * Z.pos m) e + 1) `div` 2))
  | S754_infinity _ => Raise OverflowError
  | S754_nan => Raise ValueError
  end.

Definition RGB_to_hex_rounding (RGBlist : list RGB) : result (list string) :=
  let n := fun x => round_nearest (x * 255)%float in
  RGB256 ← mapM (fun '(r, g, b) =>
                   r ← n r; g ← n g; b ← n b; Ok (r, g, b)) RGBlist;
  let colors :=
    (fun '(r, g, b) => "#" +:+ format_02x r +:+ format_02x g +:+ format_02x b)
      <$> RGB256 in
  Ok colors.

(** A channel in [0, 1], by the comparison of floats. *)
Definition unit_interval (x : float) : Prop :=
  PrimFloat.leb 0 x = true ∧ PrimFloat.leb x 1 = true.

Definition unit_RGB (c : RGB) : Prop :=
  unit_interval c.1.1 ∧ unit_interval c.1.2 ∧ unit_interval c.2.

(** The two hexadecimal digits of a number below 256. *)
Definition hex2 (n : Z) : string :=
  String (hex_char (n `div` 16)) (String (hex_char (n `mod` 16)) "").

(** The string of one colour: the scaled and truncated channels, each
    within [0, 255], as two hexadecimal digits each. *)
Definition hex_of (c : RGB) (color : string) : Prop :=
  ∃ r g b,
    to_int (c.1.1 * 255)%float = Ok r ∧
    to_int (c.1.2 * 255)%float = Ok g ∧
    to_int (c.2 * 255)%float = Ok b ∧
    0 ≤ r ≤ 255 ∧ 0 ≤ g ≤ 255 ∧ 0 ≤ b ≤ 255 ∧
    color = "#" +:+ hex2 r +:+ hex2 g +:+ hex2 b.

(** [int(x)] read off the decomposition of the float. *)
Definition int_of_spec (f : spec_float) : result Z :=
  match f with
  | S754_zero _ => Ok 0
  | S754_finite s m e => Ok (cond_Zopp s (Z.shiftl (Z.pos m) e))
  | S754_infinity _ => Raise OverflowError
  | S754_nan => Raise ValueError
  end.

(** The (hue, saturation) pairs of the grid of [generate_RGB], in the order
    of [itertools.product]. *)
Definition grid (perm : Z) : list (float * float) :=
  product
    ((fun x => float_of_int x * 1 / float_of_int perm)%float <$> range perm)
    ((fun x => float_of_int x * 1 / float_of_int perm + 0.2)%float
       <$> range perm).

(** The colour of one (hue, saturation) pair of the grid. *)
Definition grid_color (hs : float * float) : result RGB :=
  hsv_to_rgb hs.1 hs.2 0.7.

(** The grid size that [colormap] computes for [N] values. *)
Definition grid_size (N : Z) : result Z :=
  root ← math_sqrt (float_of_int N); int_ceil root.

Definition grid_size_fits (N : Z) : bool :=
  match grid_size N with
  | Ok perm => bool_decide (1 ≤ perm ≤ 100 ∧ N ≤ perm * perm)
  | Raise _ => false
  end.

(** *** Telling colours apart *)

(** The colour [hsv_to_rgb] assembles from the fractional part [f] of the
    hue, its sector [i], the saturation and the value. *)
Definition assemble (f : float) (i : Z) (s v : float) : RGB :=
  let p := (v * (1 - s))%float in
  let q := (v * (1 - s * f))%float in
  let t := (v * (1 - s * (1 - f)))%float in
  match i with
  | 0 => (v, t, p)
  | 1 => (q, v, p)
  | 2 => (p, v, t)
  | 3 => (p, q, v)
  | 4 => (t, p, v)
  | _ => (v, p, q)
  end.

(** The colours of one hue of the grid, the sector of the hue computed
    once. *)
Definition hue_row (perm : Z) (S : list float) (x : Z) : result (list RGB) :=
  let h := (float_of_int x * 1 / float_of_int perm)%float in
  i ← to_int (h * 6)%float;
  let f := (h * 6 - float_of_int i)%float in
  let i := i `mod` 6 in
  Ok ((fun s => if PrimFloat.eqb s 0 then (0.7, 0.7, 0.7)%float
                else assemble f i s 0.7) <$> S).

(** All colours of the grid, hue by hue. *)
Definition grid_rows (perm : Z) : result (list RGB) :=
  let S := (fun x => float_of_int x * 1 / float_of_int perm + 0.2)%float
             <$> range perm in
  rows ← mapM (hue_row perm S) (range perm);
  Ok (concat rows).

(** The lexicographic order of colours, by the comparisons of floats. *)
Definition lexltb (c1 c2 : RGB) : bool :=
  let '(r1, g1, b1) := c1 in
  let '(r2, g2, b2) := c2 in
  PrimFloat.ltb r1 r2 ||
  (PrimFloat.eqb r1 r2 &&
   (PrimFloat.ltb g1 g2 || (PrimFloat.eqb g1 g2 && PrimFloat.ltb b1 b2))).

Definition lexle (c1 c2 : RGB) : Prop := lexltb c2 c1 = false.

Global Instance lexle_dec c1 c2 : Decision (lexle c1 c2).
Proof. unfold lexle. apply _. Defined.

Fixpoint ascending (cs : list RGB) : bool :=
  match cs with
  | c :: cs' =>
      match cs' with
      | c' :: _ => lexltb c c' && ascending cs'
      | [] => true
      end
  | [] => true
  end.

(** The colours of the grid, once sorted, ascend strictly. *)
Definition grid_ascending (perm : Z) : bool :=
  match grid_rows perm with
  | Ok cs =>
      bool_decide (length cs = Z.to_nat (perm * perm)) &&
      ascending (merge_sort lexle cs)
  | Raise _ => false
  end.

(** [check] holds of the [n] integers from [N] on. *)
Fixpoint all_from (check : Z → bool) (n : nat) (N : Z) : bool :=
  match n with
  | O => true
  | S n' => check N && all_from check n' (N + 1)
  end.



(** *** Neighbours and the closest gene *)

(** The database has a row of gene information for the gene of a neighbour
    row, and [geneinfo] is the first one. *)
Definition has_info (cur : Db) (neargene : Neighbor) (geneinfo : GeneInfo)
  : Prop :=
  ∃ rest, getGeneInfo cur [nb1 neargene] = Ok (geneinfo :: rest).

(** A row of gene information of which the library makes a feature: the
    strand is +1, -1 or 0, which the SeqFeature constructor demands; and
    the start does not exceed the stop, which later versions of the
    library demand of a location as well. *)
Definition well_formed (geneinfo : GeneInfo) : Prop :=
  gi8 geneinfo ∈ [1; -1; 0] ∧ gi5 geneinfo ≤ gi6 geneinfo.

Global Instance well_formed_dec geneinfo : Decision (well_formed geneinfo).
Proof. unfold well_formed. apply _. Defined.

(** The feature [makeSeqFeaturesForGeneNeighbors] builds for a neighbour
    row, from the gene's row of [getGeneInfo]. *)
Definition neighbor_feature (neargene : Neighbor) (geneinfo : GeneInfo)
  : SeqFeature :=
  SeqFeature.mk (Build_FeatureLocation (gi5 geneinfo) (gi6 geneinfo))
    (gi8 geneinfo) (nb1 neargene) {[ "cluster_id" := nb8 neargene ]}.

(** The distance of a gene to the hit: the least distance between an end
    of the gene and an end of the hit. *)
Definition gene_distance (start stop : Z) (geneinfo : GeneInfo) : Z :=
  Z.min (Z.min (Z.abs (gi5 geneinfo - start)) (Z.abs (gi6 geneinfo - start)))
        (Z.min (Z.abs (gi5 geneinfo - stop)) (Z.abs (gi6 geneinfo - stop))).

(** What the loop state (minlen, mingene) of the search for the closest
    gene holds after the rows [rows]. *)
Definition closest_after (start stop N : Z) (rows : list GeneInfo)
    (state : Z * option string) : Prop :=
  state.1 ≤ N ∧
  (∀ row, row ∈ rows → state.1 ≤ gene_distance start stop row) ∧
  match state.2 with
  | None => state.1 = N
  | Some mingene =>
      state.1 < N ∧
      ∃ i row,
        rows !! i = Some row ∧ gi0 row = mingene ∧
        gene_distance start stop row = state.1 ∧
        ∀ j row', (j < i)%nat → rows !! j = Some row' →
                  state.1 < gene_distance start stop row'
  end.

(** *** The arrows of a drawing *)

(** The arrow [make_region_drawing] adds for a feature: the feature itself,
    named by its cluster id, in the colour of the cluster, bordered red
    when it carries the center id and white otherwise. *)
Definition arrow_for {C} (getcolor : gmap Z C) (centergenename : string)
    (label : bool) (feature : SeqFeature) (arrow : Arrow C) : Prop :=
  ∃ cluster_id,
    SeqFeature.qualifiers feature !! "cluster_id" = Some cluster_id ∧
    getcolor !! cluster_id = Some (arrow_color _ arrow) ∧
    arrow_feature _ arrow = feature ∧
    arrow_name _ arrow = pretty cluster_id ∧
    arrow_border _ arrow
    = (if bool_decide (SeqFeature.id feature = centergenename)
       then red else white) ∧
    arrow_label _ arrow = label.

(** The center variables after the loop over [seqfeatures], from their
    state [center] before it. *)
Definition center_after (centergenename : string)
    (center : option (Z * Z * Z)) (seqfeatures : list SeqFeature)
  : option (Z * Z * Z) :=
  foldl (fun center feature =>
           if bool_decide (SeqFeature.id feature = centergenename)
           then Some (loc_start (SeqFeature.location feature),
                      loc_end (SeqFeature.location feature),
                      SeqFeature.strand feature)
           else center)
    center seqfeatures.

(** *** The colours of the grid *)

(** The colour of hue 0 and saturation 0.2, the first of every grid. *)
Definition first_color : RGB :=
  (0.7, 0.7 * (1 - 0.2), 0.7 * (1 - 0.2))%float.

(** The same floats, channel by channel. *)
Definition same_color (c1 c2 : RGB) : bool :=
  let '(r1, g1, b1) := c1 in
  let '(r2, g2, b2) := c2 in
  PrimFloat.Leibniz.eqb r1 r2 && PrimFloat.Leibniz.eqb g1 g2
  && PrimFloat.Leibniz.eqb b1 b2.

Definition unit_intervalb (x : float) : bool :=
  PrimFloat.leb 0 x && PrimFloat.leb x 1.

Definition unit_RGBb (c : RGB) : bool :=
  unit_intervalb c.1.1 && unit_intervalb c.1.2 && unit_intervalb c.2.

(** A colour whose blue channel is below zero, and scales to a negative
    integer. *)
Definition below_gamut (c : RGB) : bool :=
  PrimFloat.ltb c.2 0 &&
  match to_int (c.1.1 * 255)%float, to_int (c.1.2 * 255)%float,
        to_int (c.2 * 255)%float with
  | Ok _, Ok _, Ok b => bool_decide (b < 0)
  | _, _, _ => false
  end.

(** The grid size of [N] values is the least whose square holds them. *)
Definition grid_size_least (N : Z) : bool :=
  match grid_size N with
  | Ok perm => bool_decide ((perm - 1) * (perm - 1) < N ≤ perm * perm)
  | Raise _ => false
  end.

(** The grid of size [perm] starts with [first_color]. *)
Definition grid_starts (perm : Z) : bool :=
  match grid_rows perm with
  | Ok (c :: _) => same_color c first_color
  | _ => false
  end.

(** Every colour of the grid of size [perm] has its channels in [0, 1]. *)
Definition grid_in_gamut (perm : Z) : bool :=
  match grid_rows perm with
  | Ok cs => forallb unit_RGBb cs
  | Raise _ => false
  end.

(** The last colour of the first hue of the grid of size [perm] is below
    the gamut. *)
Definition grid_leaves_gamut (perm : Z) : bool :=
  match grid_rows perm with
  | Ok cs =>
      match cs !! Z.to_nat (perm - 1) with
      | Some c => below_gamut c
      | None => false
      end
  | Raise _ => false
  end.

(** The strings of the colours of the grid of size [perm] all differ. *)
Definition grid_hex_distinct (perm : Z) : bool :=
  match grid_rows perm with
  | Ok cs =>
      match RGB_to_hex cs with
      | Ok colors => bool_decide (NoDup colors)
      | Raise _ => false
      end
  | Raise _ => false
  end.

(** *** Channels that scale to a finite float *)

Definition finite_channel (x : float) : bool := is_finite (x * 255)%float.

Definition finite_RGB (c : RGB) : bool :=
  finite_channel c.1.1 && finite_channel c.1.2 && finite_channel c.2.


(** ** Sample data *)

Module Sample.

Definition run : clusterrun := ("all_I_2.0_c_0.4_m_maxbit", "run1").

Definition contigs : gmap string string :=
  {[ "NC_000913_1" := "NC_000913.1" ]}.

(** A database that knows one gene, without neighbours, and no gene in
    any region. *)
Definition lonely : Db := {|
  getGeneInfo := fun ids =>
    Ok ((fun geneid => Build_GeneInfo geneid 190 255 1) <$> ids);
  getGeneNeighborhoods := fun _ _ => Ok [];
  getGenesInRegion := fun _ _ _ => Ok [];
  getSanitizedContigList := Ok contigs;
  splitTblastn := fun tblastn_id =>
    if bool_decide (tblastn_id = "NC_000913_1_100_400")
    then Ok ("NC_000913_1", 100, 400)
    else if bool_decide (tblastn_id = "NC_000913_1_400_100")
    then Ok ("NC_000913_1", 400, 100)
    else if bool_decide (tblastn_id = "NC_000913_1_500_500")
    then Ok ("NC_000913_1", 500, 500)
    else Raise ValueError;
  sanitizeString := fun s _ => s;
|}.

Definition gene : string := "fig|83333.1.peg.1".

(** The two features of the centering example. *)
Definition left_feature : SeqFeature :=
  SeqFeature.mk (Build_FeatureLocation 100 500) 1 "left"
    {[ "cluster_id" := 7 ]}.
Definition right_feature : SeqFeature :=
  SeqFeature.mk (Build_FeatureLocation 500 900) 1 "right"
    {[ "cluster_id" := 3 ]}.

Definition getcolor : gmap Z string :=
  {[ 3 := "#b25353"; 7 := "#b28e8e" ]}.

End Sample.

(** A database with three genes on one contig and their neighbourhoods; one
    neighbour row of the third gene names a gene without information, and
    a gene on another contig has a strand that is no strand. *)
Module Operon.

Definition thrL : string := "fig|83333.1.peg.1".
Definition thrA : string := "fig|83333.1.peg.2".
Definition thrB : string := "fig|83333.1.peg.3".
Definition ghost : string := "fig|83333.1.peg.4".
Definition odd : string := "fig|83333.1.peg.5".

Definition genes : list GeneInfo :=
  [Build_GeneInfo thrL 190 255 1;
   Build_GeneInfo thrA 337 2799 1;
   Build_GeneInfo thrB 3733 2801 (-1)].

Definition strays : list GeneInfo := [Build_GeneInfo odd 5000 5600 2].

Definition info (geneid : string) : option GeneInfo :=
  head (filter (fun row => gi0 row = geneid) (genes ++ strays)).

Definition db : Db := {|
  getGeneInfo := fun ids => Ok (omap info ids);
  getGeneNeighborhoods := fun genename _ =>
    if bool_decide (genename = Some thrA)
    then Ok [Build_Neighbor thrL 12; Build_Neighbor thrA 7;
             Build_Neighbor thrB 3]
    else if bool_decide (genename = Some thrB)
    then Ok [Build_Neighbor thrA 7; Build_Neighbor ghost 5;
             Build_Neighbor thrB 3]
    else if bool_decide (genename = Some thrL)
    then Ok [Build_Neighbor thrL 12; Build_Neighbor thrA 7]
    else if bool_decide (genename = Some odd)
    then Ok [Build_Neighbor thrL 12; Build_Neighbor odd 9;
             Build_Neighbor thrA 7]
    else Ok [];
  getGenesInRegion := fun contig lo hi =>
    if bool_decide (contig = "NC_000913.1")
    then Ok (gi0 <$> filter (fun row => lo ≤ Z.min (gi5 row) (gi6 row) ∧
                                        Z.max (gi5 row) (gi6 row) ≤ hi) genes)
    else Ok [];
  getSanitizedContigList := Ok Sample.contigs;
  splitTblastn := fun tblastn_id =>
    if bool_decide (tblastn_id = "NC_000913_1_2000_2300")
    then Ok ("NC_000913_1", 2000, 2300)
    else if bool_decide (tblastn_id = "NC_000913_1_400_100")
    then Ok ("NC_000913_1", 400, 100)
    else if bool_decide (tblastn_id = "NC_000913_1_100_180")
    then Ok ("NC_000913_1", 100, 180)
    else Raise ValueError;
  sanitizeString := fun s _ => s;
|}.

(** The features of the neighbourhood of [thrA]. *)
Definition features : list SeqFeature :=
  [SeqFeature.mk (Build_FeatureLocation 190 255) 1 thrL
     {[ "cluster_id" := 12 ]};
   SeqFeature.mk (Build_FeatureLocation 337 2799) 1 thrA
     {[ "cluster_id" := 7 ]};
   SeqFeature.mk (Build_FeatureLocation 3733 2801) (-1) thrB
     {[ "cluster_id" := 3 ]}].

Definition getcolor : gmap Z string :=
  {[ 3 := "#b25353"; 7 := "#b28e8e"; 12 := "#b27070" ]}.

End Operon.

(** * Properties *)

Section FoldBounds.

Lemma foldl_max_ge (xs : list Z) (x : Z) : x ≤ foldl Z.max x xs.
Proof.
  revert x; induction xs as [|y xs IH]; intros x; simpl; [lia|].
  etrans; [|apply IH]. lia.
Qed.

Lemma foldl_max_upper (xs : list Z) (x y : Z) :
  y ∈ xs → y ≤ foldl Z.max x xs.
Proof.
  revert x; induction xs as [|z xs IH]; intros x Hy; simpl.
  - by apply elem_of_nil in Hy.
  - apply elem_of_cons in Hy as [->|Hy]; [|by apply IH].
    etrans; [|apply foldl_max_ge]. lia.
Qed.

Lemma foldl_max_attained (xs : list Z) (x : Z) :
  foldl Z.max x xs ∈ x :: xs.
Proof.
  revert x; induction xs as [|z xs IH]; intros x; simpl; [set_solver|].
  specialize (IH (Z.max x z)).
  apply elem_of_cons in IH as [IH|IH]; [|set_solver].
  rewrite IH. destruct (Z.max_spec x z) as [[_ ->]|[_ ->]]; set_solver.
Qed.

Lemma foldl_min_le (xs : list Z) (x : Z) : foldl Z.min x xs ≤ x.
Proof.
  revert x; induction xs as [|y xs IH]; intros x; simpl; [lia|].
  etrans; [apply IH|]. lia.
Qed.

Lemma foldl_min_lower (xs : list Z) (x y : Z) :
  y ∈ xs → foldl Z.min x xs ≤ y.
Proof.
  revert x; induction xs as [|z xs IH]; intros x Hy; simpl.
  - by apply elem_of_nil in Hy.
  - apply elem_of_cons in Hy as [->|Hy]; [|by apply IH].
    etrans; [apply foldl_min_le|]. lia.
Qed.

Lemma foldl_min_attained (xs : list Z) (x : Z) :
  foldl Z.min x xs ∈ x :: xs.
Proof.
  revert x; induction xs as [|z xs IH]; intros x; simpl; [set_solver|].
  specialize (IH (Z.min x z)).
  apply elem_of_cons in IH as [IH|IH]; [|set_solver].
  rewrite IH. destruct (Z.min_spec x z) as [[_ ->]|[_ ->]]; set_solver.
Qed.

Lemma py_max_spec (xs : list Z) :
  xs ≠ [] →
  ∃ m, Py.max xs = Ok m ∧ m ∈ xs ∧ ∀ y, y ∈ xs → y ≤ m.
Proof.
  destruct xs as [|x xs]; [done|intros _].
  exists (foldl Z.max x xs); split_and!; [done|apply foldl_max_attained|].
  intros y [->|Hy]%elem_of_cons;
    [apply foldl_max_ge|by apply foldl_max_upper].
Qed.

Lemma py_min_spec (xs : list Z) :
  xs ≠ [] →
  ∃ m, Py.min xs = Ok m ∧ m ∈ xs ∧ ∀ y, y ∈ xs → m ≤ y.
Proof.
  destruct xs as [|x xs]; [done|intros _].
  exists (foldl Z.min x xs); split_and!; [done|apply foldl_min_attained|].
  intros y [->|Hy]%elem_of_cons;
    [apply foldl_min_le|by apply foldl_min_lower].
Qed.

End FoldBounds.

(** ** The extent of a region *)

Section RegionLength.

Implicit Types (seqfeatures : list SeqFeature) (f : SeqFeature).

Let starts seqfeatures : list Z :=
  (fun f => loc_start (SeqFeature.location f)) <$> seqfeatures.
Let ends seqfeatures : list Z :=
  (fun f => loc_end (SeqFeature.location f)) <$> seqfeatures.

(** On a non-empty list the function is the maximum of the two maxima
    and the minimum of the two minima. *)
Lemma regionlength_cons f seqfeatures :
  ∃ max_s max_e min_s min_e,
    Py.max (starts (f :: seqfeatures)) = Ok max_s ∧
    Py.max (ends (f :: seqfeatures)) = Ok max_e ∧
    Py.min (starts (f :: seqfeatures)) = Ok min_s ∧
    Py.min (ends (f :: seqfeatures)) = Ok min_e ∧
    regionlength (f :: seqfeatures)
    = Ok (Z.max max_s max_e, Z.min min_s min_e).
Proof.
  unfold regionlength, starts, ends; simpl.
  rewrite <- !list_fmap_compose. by eexists _, _, _, _.
Qed.

Lemma coord_in_starts_or_ends f x seqfeatures :
  f ∈ seqfeatures → x ∈ coords f →
  x ∈ starts seqfeatures ∨ x ∈ ends seqfeatures.
Proof.
  intros Hf Hx. unfold coords in Hx. unfold starts, ends.
  apply elem_of_cons in Hx as [->|Hx]; [left|right].
  - apply list_elem_of_fmap; eauto.
  - apply list_elem_of_singleton in Hx as ->.
    apply list_elem_of_fmap; eauto.
Qed.

Lemma starts_coord x seqfeatures :
  x ∈ starts seqfeatures → ∃ f, f ∈ seqfeatures ∧ x ∈ coords f.
Proof.
  intros (f & -> & Hf)%list_elem_of_fmap. exists f. split; [done|].
  unfold coords. set_solver.
Qed.

Lemma ends_coord x seqfeatures :
  x ∈ ends seqfeatures → ∃ f, f ∈ seqfeatures ∧ x ∈ coords f.
Proof.
  intros (f & -> & Hf)%list_elem_of_fmap. exists f. split; [done|].
  unfold coords. set_solver.
Qed.

(** The extent of a non-empty list: it bounds every coordinate, and each
    of its two values is a coordinate of the list. *)
Lemma regionlength_nonempty seqfeatures :
  seqfeatures ≠ [] →
  ∃ start end_,
    regionlength seqfeatures = Ok (start, end_) ∧
    (∀ f x, f ∈ seqfeatures → x ∈ coords f → end_ ≤ x ≤ start) ∧
    (∃ f, f ∈ seqfeatures ∧ start ∈ coords f) ∧
    (∃ f, f ∈ seqfeatures ∧ end_ ∈ coords f) ∧
    end_ ≤ start.
Proof.
  destruct seqfeatures as [|f0 fs]; [done|intros _].
  destruct (regionlength_cons f0 fs)
    as (max_s & max_e & min_s & min_e & Hmaxs & Hmaxe & Hmins & Hmine & ->).
  set (l := f0 :: fs) in *.
  assert (starts l ≠ []) as Hs by done.
  assert (ends l ≠ []) as He by done.
  destruct (py_max_spec _ Hs) as (? & E1 & Hmaxs_in & Hmaxs_ub).
  destruct (py_max_spec _ He) as (? & E2 & Hmaxe_in & Hmaxe_ub).
  destruct (py_min_spec _ Hs) as (? & E3 & Hmins_in & Hmins_lb).
  destruct (py_min_spec _ He) as (? & E4 & Hmine_in & Hmine_lb).
  rewrite Hmaxs in E1; rewrite Hmaxe in E2.
  rewrite Hmins in E3; rewrite Hmine in E4.
  injection E1 as <-; injection E2 as <-.
  injection E3 as <-; injection E4 as <-.
  assert (∀ f x, f ∈ l → x ∈ coords f →
            Z.min min_s min_e ≤ x ≤ Z.max max_s max_e) as Hbounds.
  { intros f x Hf Hx.
    destruct (coord_in_starts_or_ends f x l Hf Hx) as [Hin|Hin].
    - specialize (Hmaxs_ub _ Hin). specialize (Hmins_lb _ Hin). lia.
    - specialize (Hmaxe_ub _ Hin). specialize (Hmine_lb _ Hin). lia. }
  eexists _, _. split_and!; [done|done| | |].
  - destruct (Z.max_spec max_s max_e) as [[_ ->]|[_ ->]];
      [by apply ends_coord|by apply starts_coord].
  - destruct (Z.min_spec min_s min_e) as [[_ ->]|[_ ->]];
      [by apply starts_coord|by apply ends_coord].
  - destruct (starts_coord _ _ Hmaxs_in) as (f & Hf & Hx).
    specialize (Hbounds f _ Hf Hx). lia.
Qed.

(** C2. For every non-empty list of features, [regionlength] returns the
    pair (maximum of all start and end coordinates, minimum of all start
    and end coordinates): the first value bounds every coordinate from
    above, the second from below, each is the start or the end of some
    feature of the list, and so the first is at least the second. *)
Theorem regionlength_extent seqfeatures :
  seqfeatures ≠ [] →
  ∃ start end_,
    regionlength seqfeatures = Ok (start, end_) ∧
    (∀ f x, f ∈ seqfeatures → x ∈ coords f → end_ ≤ x ≤ start) ∧
    (∃ f, f ∈ seqfeatures ∧ start ∈ coords f) ∧
    (∃ f, f ∈ seqfeatures ∧ end_ ∈ coords f) ∧
    end_ ≤ start.
Proof. exact (regionlength_nonempty seqfeatures). Qed.

Lemma regionlength_extent_witness :
  [Sample.left_feature; Sample.right_feature] ≠ [] ∧
  ∃ start end_,
    regionlength [Sample.left_feature; Sample.right_feature]
    = Ok (start, end_) ∧
    (∀ f x, f ∈ [Sample.left_feature; Sample.right_feature] →
            x ∈ coords f → end_ ≤ x ≤ start) ∧
    (∃ f, f ∈ [Sample.left_feature; Sample.right_feature] ∧
          start ∈ coords f) ∧
    (∃ f, f ∈ [Sample.left_feature; Sample.right_feature] ∧
          end_ ∈ coords f) ∧
    end_ ≤ start.
Proof.
  split; [discriminate|].
  apply (regionlength_extent [Sample.left_feature; Sample.right_feature]).
  discriminate.
Defined.

(** The two outcomes of [regionlength]. *)
Lemma regionlength_outcome seqfeatures :
  (seqfeatures = [] ∧ regionlength seqfeatures = Raise ValueError) ∨
  (seqfeatures ≠ [] ∧ ∃ extent, regionlength seqfeatures = Ok extent).
Proof.
  destruct seqfeatures as [|f fs]; [by left|right].
  split; [done|].
  destruct (regionlength_cons f fs) as (? & ? & ? & ? & _ & _ & _ & _ & ->).
  by eexists.
Qed.

(** C7, as the code has it. [regionlength] fails exactly on the empty
    list, and the failure is the ValueError of unpacking an empty [zip]
    into two names; on every non-empty list it returns. *)
Theorem regionlength_empty_ValueError seqfeatures :
  (seqfeatures = [] ∧ regionlength seqfeatures = Raise ValueError) ∨
  (seqfeatures ≠ [] ∧ ∃ extent, regionlength seqfeatures = Ok extent).
Proof. exact (regionlength_outcome seqfeatures). Qed.

(** C7 as stated fails: the empty list raises ValueError, which is not
    EmptyInputError. *)
Lemma regionlength_empty_not_EmptyInputError :
  regionlength [] = Raise ValueError ∧
  raises EmptyInputError (regionlength []) = false.
Proof. split; reflexivity. Qed.

End RegionLength.

(** ** Assembling the features *)

Section Assembly.

Variable cur : Db.
Implicit Types (genename : option string) (clusterrunid : clusterrun).

(** C3, as the code has it. When the neighbourhood lookup for the gene
    returns no row, the loop body never runs and the function returns the
    empty list, as its docstring says. *)
Theorem no_neighborhood_no_features genename clusterrunid :
  getGeneNeighborhoods cur genename clusterrunid = Ok [] →
  makeSeqFeaturesForGeneNeighbors genename clusterrunid cur = Ok [].
Proof.
  intros Hnone. unfold makeSeqFeaturesForGeneNeighbors.
  by rewrite Hnone.
Qed.

(** The hit's feature and the warning, written out. *)
Lemma tblastn_seqfeature_eq tblastn_id start stop :
  tblastn_seqfeature tblastn_id start stop
  = SeqFeature.mk (Build_FeatureLocation start stop)
      (if bool_decide (start < stop) then 1 else -1) tblastn_id
      {[ "cluster_id" := -1 ]}.
Proof. reflexivity. Qed.

Lemma tblastn_seqfeature_new tblastn_id start stop :
  (feature ← SeqFeature.new (Build_FeatureLocation start stop)
               (if bool_decide (start < stop) then 1 else -1) tblastn_id;
   Ok (set_qualifier feature "cluster_id" (-1)))
  = Ok (tblastn_seqfeature tblastn_id start stop).
Proof.
  unfold SeqFeature.new, tblastn_seqfeature.
  by destruct (bool_decide (start < stop)).
Qed.

Lemma no_neighbors_warning_eq tblastn_id N contig :
  no_neighbors_warning tblastn_id N contig
  = "WARNING: No neighboring genes found for TBLASTN hit " +:+ tblastn_id
    +:+ " within " +:+ pretty N +:+ " nucleotides in contig " +:+ contig
    +:+ String "010"%char "".
Proof. reflexivity. Qed.

(** C8. When the search for genes in the window around the hit returns
    no gene, the function does not raise: it writes exactly one line on
    stderr, the warning that names the hit id, the window [N] in decimal
    and the contig searched, and it returns the list that holds one
    feature, the hit's: located at the hit's start and stop, on strand +1
    when start < stop and -1 otherwise, with the hit id as its id, and
    with the cluster id -1 as its only qualifier. *)
Theorem tblastn_no_neighbors tblastn_id clusterrunid N
    sanitizedToNot contig start stop :
  getSanitizedContigList cur = Ok sanitizedToNot →
  splitTblastn cur tblastn_id = Ok (contig, start, stop) →
  getGenesInRegion cur (default contig (sanitizedToNot !! contig))
    (start - N) (stop + N) = Ok [] →
  makeSeqObjectsForTblastnNeighbors tblastn_id clusterrunid cur N
  = (["WARNING: No neighboring genes found for TBLASTN hit " +:+ tblastn_id
      +:+ " within " +:+ pretty N +:+ " nucleotides in contig "
      +:+ default contig (sanitizedToNot !! contig)
      +:+ String "010"%char ""],
     Ok [SeqFeature.mk (Build_FeatureLocation start stop)
           (if bool_decide (start < stop) then 1 else -1) tblastn_id
           {[ "cluster_id" := -1 ]}]).
Proof.
  intros Hcontigs Hsplit Hnone.
  rewrite <- tblastn_seqfeature_eq, <- no_neighbors_warning_eq.
  unfold makeSeqObjectsForTblastnNeighbors.
  rewrite Hcontigs, Hsplit. unfold mbind, io_bind, lift; simpl.
  by rewrite Hnone.
Qed.

(** Whatever the function returns ends with the feature of the hit. *)
Lemma tblastn_feature_last tblastn_id clusterrunid N contig start stop
    log features :
  splitTblastn cur tblastn_id = Ok (contig, start, stop) →
  makeSeqObjectsForTblastnNeighbors tblastn_id clusterrunid cur N
  = (log, Ok features) →
  last features = Some (tblastn_seqfeature tblastn_id start stop).
Proof.
  intros Hsplit. unfold makeSeqObjectsForTblastnNeighbors.
  destruct (getSanitizedContigList cur) as [sanitizedToNot|];
    unfold mbind, io_bind, lift; simpl; [|by intros [= _ ?]].
  rewrite Hsplit; simpl.
  destruct (getGenesInRegion _ _ _ _) as [genes|]; simpl;
    [|by intros [= _ ?]].
  case_bool_decide; simpl; [by intros [= _ <-]|].
  destruct (getGeneInfo cur genes) as [geneinfo|]; simpl;
    [|by intros [= _ ?]].
  destruct (closest_gene start stop N geneinfo) as [minlen mingene]; simpl.
  destruct (makeSeqFeaturesForGeneNeighbors _ _ _) as [neighbors|]; simpl;
    [|by intros [= _ ?]].
  intros [= _ <-]. apply last_snoc.
Qed.

(** C10. For a hit id that parses to the coordinates (start, stop), the
    feature of the hit has strand +1 exactly when start < stop and -1
    otherwise, so -1 when start = stop; and this feature is the last
    item of whatever list the function returns. *)
Theorem tblastn_strand tblastn_id clusterrunid N contig start stop :
  splitTblastn cur tblastn_id = Ok (contig, start, stop) →
  let hit := tblastn_seqfeature tblastn_id start stop in
  (start < stop ↔ SeqFeature.strand hit = 1) ∧
  (¬ start < stop ↔ SeqFeature.strand hit = -1) ∧
  (start = stop → SeqFeature.strand hit = -1) ∧
  ∀ log features,
    makeSeqObjectsForTblastnNeighbors tblastn_id clusterrunid cur N
    = (log, Ok features) →
    last features = Some hit.
Proof.
  intros Hsplit hit.
  assert (SeqFeature.strand hit
          = if bool_decide (start < stop) then 1 else -1) as -> by done.
  split_and!.
  - case_bool_decide; split; (done || lia).
  - case_bool_decide; split; (done || lia).
  - intros ->. case_bool_decide; (done || lia).
  - intros log features. by apply (tblastn_feature_last _ _ _ contig).
Qed.

End Assembly.

(** C3 as stated fails: for a gene the database knows and no neighbour row,
    the function returns the empty list and not the list of the gene's own
    feature. *)
Lemma lonely_gene_gets_no_feature :
  ∃ feature,
    makeSeqFeature Sample.gene Sample.lonely = Ok feature ∧
    makeSeqFeaturesForGeneNeighbors (Some Sample.gene) Sample.run Sample.lonely
    = Ok [] ∧
    bool_decide (Ok [] = Ok [feature]) = false.
Proof. eexists. split_and!; reflexivity. Qed.

Lemma no_neighborhood_no_features_witness :
  getGeneNeighborhoods Sample.lonely (Some Sample.gene) Sample.run = Ok [] ∧
  makeSeqFeaturesForGeneNeighbors (Some Sample.gene) Sample.run Sample.lonely
  = Ok [].
Proof.
  split; [reflexivity|].
  apply (no_neighborhood_no_features Sample.lonely); reflexivity.
Defined.

Lemma tblastn_no_neighbors_witness :
  makeSeqObjectsForTblastnNeighbors "NC_000913_1_400_100" Sample.run
    Sample.lonely 200000
  = (["WARNING: No neighboring genes found for TBLASTN hit "
      +:+ "NC_000913_1_400_100 within 200000 nucleotides in contig "
      +:+ "NC_000913.1" +:+ String "010"%char ""],
     Ok [SeqFeature.mk (Build_FeatureLocation 400 100) (-1)
           "NC_000913_1_400_100" {[ "cluster_id" := -1 ]}]).
Proof.
  apply (tblastn_no_neighbors Sample.lonely "NC_000913_1_400_100" Sample.run
           200000 Sample.contigs "NC_000913_1" 400 100); reflexivity.
Defined.

Lemma tblastn_strand_witness :
  splitTblastn Sample.lonely "NC_000913_1_500_500"
  = Ok ("NC_000913_1", 500, 500) ∧
  SeqFeature.strand (tblastn_seqfeature "NC_000913_1_500_500" 500 500) = -1 ∧
  makeSeqObjectsForTblastnNeighbors "NC_000913_1_500_500" Sample.run
    Sample.lonely N_default
  = ([no_neighbors_warning "NC_000913_1_500_500" 200000 "NC_000913.1"],
     Ok [tblastn_seqfeature "NC_000913_1_500_500" 500 500]).
Proof.
  split; [reflexivity|].
  split; [|reflexivity].
  apply (tblastn_strand Sample.lonely "NC_000913_1_500_500" Sample.run
           N_default "NC_000913_1" 500 500); reflexivity.
Defined.

(** ** The region drawing *)

Section RegionDrawing.

Context {C : Type}.
Variables (cur : Db) (getcolor : gmap Z C).
Variables (centergenename : string) (label : bool).

(** A feature that does not carry the center id leaves the center
    variables unbound; the iteration raises KeyError when the feature has
    no colour. *)
Lemma add_feature_center_absent gd_feature_set f :
  SeqFeature.id f ≠ centergenename →
  (colored getcolor f = true ∧
   ∃ arrows,
     add_feature getcolor centergenename label (None, gd_feature_set) f
     = Ok (None, arrows)) ∨
  (colored getcolor f = false ∧
   add_feature getcolor centergenename label (None, gd_feature_set) f
   = Raise KeyError).
Proof.
  intros Hf. unfold add_feature, colored, getitem.
  rewrite (bool_decide_eq_false_2 _ Hf).
  destruct (SeqFeature.qualifiers f !! "cluster_id") as [cluster_id|];
    simpl; [|by right].
  destruct (getcolor !! cluster_id) as [color|] eqn:Hcolor; simpl.
  - left. split; [done|by eexists].
  - by right.
Qed.

Lemma add_features_center_absent seqfeatures gd_feature_set :
  (∀ f, f ∈ seqfeatures → SeqFeature.id f ≠ centergenename) →
  (forallb (colored getcolor) seqfeatures = true ∧
   ∃ arrows,
     for_ seqfeatures (None, gd_feature_set)
       (add_feature getcolor centergenename label)
     = Ok (None, arrows)) ∨
  (forallb (colored getcolor) seqfeatures = false ∧
   for_ seqfeatures (None, gd_feature_set)
     (add_feature getcolor centergenename label)
   = Raise KeyError).
Proof.
  revert gd_feature_set.
  induction seqfeatures as [|f fs IH]; intros acc Hids.
  { left. split; [done|]. by eexists. }
  assert (SeqFeature.id f ≠ centergenename) as Hf
    by (apply Hids; left).
  assert (∀ f', f' ∈ fs → SeqFeature.id f' ≠ centergenename) as Hfs
    by (intros f' Hf'; apply Hids; by right).
  cbn [for_ forallb].
  destruct (add_feature_center_absent acc f Hf)
    as [[-> [arrows ->]]|[-> ->]]; [|by right].
  apply IH, Hfs.
Qed.

(** C6, as the code has it. When no feature of the list carries the
    center id, [make_region_drawing] raises before anything is drawn:
    KeyError when some feature has no colour, else ValueError on the
    empty list, else UnboundLocalError, because the center variables
    were never bound. The source has no CenterFeatureNotFoundError. *)
Theorem render_center_absent seqfeatures maxwidth :
  (∀ f, f ∈ seqfeatures → SeqFeature.id f ≠ centergenename) →
  make_region_drawing cur seqfeatures getcolor centergenename maxwidth label
  = Raise (if negb (forallb (colored getcolor) seqfeatures) then KeyError
           else match seqfeatures with
                | [] => ValueError
                | _ :: _ => UnboundLocalError
                end) ∧
  raises CenterFeatureNotFoundError
    (make_region_drawing cur seqfeatures getcolor centergenename maxwidth
       label) = false.
Proof.
  intros Hids.
  assert (make_region_drawing cur seqfeatures getcolor centergenename
            maxwidth label
          = Raise (if negb (forallb (colored getcolor) seqfeatures)
                   then KeyError
                   else match seqfeatures with
                        | [] => ValueError
                        | _ :: _ => UnboundLocalError
                        end)) as ->.
  { unfold make_region_drawing.
    destruct (add_features_center_absent seqfeatures [] Hids)
      as [[-> [arrows ->]]|[-> ->]]; simpl; [|done].
    unfold region_layout.
    destruct (regionlength_outcome seqfeatures)
      as [[-> ->]|[Hne [[start end_] ->]]]; simpl; [done|].
    by destruct seqfeatures. }
  destruct (negb _); [done|]. by destruct seqfeatures.
Qed.

End RegionDrawing.

Lemma render_center_absent_witness :
  (∀ f, f ∈ [Sample.left_feature; Sample.right_feature] →
        SeqFeature.id f ≠ "middle") ∧
  make_region_drawing Sample.lonely
    [Sample.left_feature; Sample.right_feature] Sample.getcolor "middle" 400
    false
  = Raise UnboundLocalError.
Proof.
  assert (∀ f, f ∈ [Sample.left_feature; Sample.right_feature] →
               SeqFeature.id f ≠ "middle") as Hids.
  { intros f Hf. repeat (apply elem_of_cons in Hf as [->|Hf]; [done|]).
    by apply elem_of_nil in Hf. }
  split; [exact Hids|].
  exact (proj1 (render_center_absent Sample.lonely Sample.getcolor "middle"
                  false [Sample.left_feature; Sample.right_feature] 400
                  Hids)).
Defined.

(** C6 as stated fails: with a center id that no feature carries, the
    function raises UnboundLocalError, not CenterFeatureNotFoundError. *)
Lemma render_center_absent_UnboundLocalError :
  make_region_drawing Sample.lonely
    [Sample.left_feature; Sample.right_feature] Sample.getcolor "middle" 400
    false
  = Raise UnboundLocalError ∧
  raises CenterFeatureNotFoundError
    (make_region_drawing Sample.lonely
       [Sample.left_feature; Sample.right_feature] Sample.getcolor "middle"
       400 false) = false.
Proof. split; reflexivity. Qed.

(** C1. Features spanning [100,500] and [500,900], both on strand +1, the
    second one the center (midpoint 700), a page 400 pixels wide and 20
    nucleotides per pixel: the extent is (900, 100), the left span 200, the
    right span 600, the page 20 units wide, the right offset 0, the left
    offset -20, and the page fractions are (-1.0, 0.0); the image is not
    rotated. *)
Theorem centering_example :
  ∃ drawing,
    make_region_drawing Sample.lonely
      [Sample.left_feature; Sample.right_feature] Sample.getcolor "right" 400
      false
    = Ok drawing ∧
    layout drawing
    = {| lay_start := 900; lay_end := 100; pagew_px := 20;
         midcentergene := 700; l2mid := 200; r2mid := 600;
         roffset := 0; loffset := -20; xl := -1; xr := 0 |} ∧
    rotated drawing = false.
Proof. eexists. split; [vm_compute; reflexivity|]. split; reflexivity. Qed.

(** Every division of the example is exact, so that floor division and true
    division agree on it. *)
Remark centering_example_exact :
  400 `mod` scale = 0 ∧ Z.abs (900 - 500) `mod` 2 = 0 ∧
  (400 `div` scale) `mod` 2 = 0 ∧ 200 `mod` scale = 0 ∧ 600 `mod` scale = 0.
Proof. by split_and!. Qed.

(** ** Floats: rounding a product into a channel *)

Section FloatRounding.

Lemma digits2_pos_size (p : positive) : digits2_pos p = Pos.size p.
Proof. induction p; simpl; congruence. Qed.

Lemma digits2_pos_upper (p : positive) (a : Z) :
0 ≤ a → Z.pos p < 2 ^ a → Z.pos (digits2_pos p) ≤ a.
Proof.
intros Ha Hp. rewrite digits2_pos_size.
destruct (Z.le_gt_cases (Z.pos (Pos.size p)) a) as [|Hgt]; [done|exfalso].
pose proof (Pos.size_le p) as Hle.
assert (2 ^ Z.pos (Pos.size p) ≤ 2 * Z.pos p) as Hle'.
{ rewrite <- Pos2Z.inj_pow. change (2 * Z.pos p) with (Z.pos p~0). lia. }
assert (2 ^ (a + 1) ≤ 2 ^ Z.pos (Pos.size p))
  by (apply Z.pow_le_mono_r; lia).
rewrite Z.pow_add_r, Z.pow_1_r in * by lia. lia.
Qed.

Lemma shr_1_m (mrs : shr_record) :
0 ≤ shr_m mrs → shr_m (shr_1 mrs) = shr_m mrs `div` 2.
Proof.
intros Hm. rewrite <- Z.div2_div.
destruct mrs as [m r s]; simpl in *.
by destruct m as [|[p|p|]|p].
Qed.

Lemma pow2_xI (p : positive) :
2 ^ Z.pos p~1 = 2 * 2 ^ Z.pos p * 2 ^ Z.pos p.
Proof.
rewrite (Pos2Z.inj_xI p).
replace (2 * Z.pos p + 1) with (1 + Z.pos p + Z.pos p) by lia.
rewrite !Z.pow_add_r by lia. lia.
Qed.

Lemma pow2_xO (p : positive) : 2 ^ Z.pos p~0 = 2 ^ Z.pos p * 2 ^ Z.pos p.
Proof.
rewrite (Pos2Z.inj_xO p).
replace (2 * Z.pos p) with (Z.pos p + Z.pos p) by lia.
by rewrite Z.pow_add_r by lia.
Qed.

Lemma iter_shr_1_m (p : positive) (mrs : shr_record) :
0 ≤ shr_m mrs →
shr_m (SpecFloat.iter_pos shr_1 p mrs) = shr_m mrs `div` 2 ^ Z.pos p.
Proof.
revert mrs. induction p as [p IH|p IH|]; intros mrs Hm; simpl.
- assert (0 ≤ shr_m (shr_1 mrs)) as H1
    by (rewrite shr_1_m by done; by apply Z.div_pos).
  assert (0 ≤ shr_m (SpecFloat.iter_pos shr_1 p (shr_1 mrs))) as H2
    by (rewrite IH by done; apply Z.div_pos; lia).
  rewrite IH, IH, shr_1_m by done.
  rewrite !Z.div_div by lia. by rewrite pow2_xI, Z.mul_assoc.
- assert (0 ≤ shr_m (SpecFloat.iter_pos shr_1 p mrs)) as H2
    by (rewrite IH by done; apply Z.div_pos; lia).
  rewrite IH, IH by done.
  rewrite !Z.div_div by lia. by rewrite pow2_xO.
- rewrite shr_1_m by done. by rewrite Z.pow_1_r.
Qed.

Lemma shr_spec (mrs : shr_record) (e n : Z) :
0 ≤ shr_m mrs →
shr_m (shr mrs e n).1 = shr_m mrs `div` 2 ^ Z.max 0 n ∧
(shr mrs e n).2 = e + Z.max 0 n.
Proof.
intros Hm. destruct n as [|p|p]; simpl.
- rewrite Z.div_1_r. split; [done|lia].
- rewrite iter_shr_1_m by done. split; [done|lia].
- rewrite Z.div_1_r. split; [done|lia].
Qed.

Lemma round_nearest_even_bounds (m : Z) (l : location) :
m ≤ round_nearest_even m l ≤ m + 1.
Proof.
destruct l as [|[]]; simpl; try lia. destruct (Z.even m); lia.
Qed.

Lemma Zdigits2_upper (m a : Z) :
0 ≤ m → 0 ≤ a → m < 2 ^ a → Zdigits2 m ≤ a.
Proof.
intros Hm Ha Hlt. destruct m as [|p|p]; simpl; [done| |lia].
by apply digits2_pos_upper.
Qed.

Lemma shr_fexp_spec (m e : Z) :
0 ≤ m →
let k := Z.max 0 (fexp prec emax (Zdigits2 m + e) - e) in
shr_m (shr_fexp prec emax m e loc_Exact).1 = m `div` 2 ^ k ∧
(shr_fexp prec emax m e loc_Exact).2 = e + k.
Proof.
intros Hm k. unfold shr_fexp. by apply shr_spec.
Qed.

(** Rounding a non-negative value of at most 255 to a float gives a float
  below 256. *)
Lemma binary_round_aux_below_256 (M : positive) (E : Z) :
E ≤ -50 → Z.pos M ≤ 255 * 2 ^ (- E) →
∃ n, int_of_spec (binary_round_aux prec emax false (Z.pos M) E loc_Exact)
     = Ok n ∧ 0 ≤ n ≤ 255.
Proof.
intros HE HM. unfold binary_round_aux.
destruct (shr_fexp_spec (Z.pos M) E) as [Hm1 He1]; [lia|].
destruct (shr_fexp prec emax (Z.pos M) E loc_Exact) as [mrs1 e1].
cbn [fst snd] in Hm1, He1.
remember (Z.max 0 (fexp prec emax (Zdigits2 (Z.pos M) + E) - E))
  as k eqn:Ek.
pose proof (round_nearest_even_bounds (shr_m mrs1)
              (loc_of_shr_record mrs1)) as Hm2.
set (m2 := round_nearest_even (shr_m mrs1) (loc_of_shr_record mrs1)) in *.
assert (0 < 2 ^ (- E)) as HpE by (apply Z.pow_pos_nonneg; lia).
assert (Z.pos M < 2 ^ (8 - E)) as HMlt.
{ replace (8 - E) with (8 + - E) by lia.
  rewrite Z.pow_add_r by lia. change (2 ^ 8) with 256. lia. }
assert (Zdigits2 (Z.pos M) ≤ 8 - E) as Hd
  by (apply Zdigits2_upper; lia).
assert (0 ≤ k < - E ∧ e1 ≤ -45) as [Hk He1']
  by (unfold fexp, emin in Ek; change prec with 53 in Ek;
      change emax with 1024 in Ek; lia).
assert (0 < 2 ^ k) as Hpk by (apply Z.pow_pos_nonneg; lia).
assert (0 ≤ shr_m mrs1 ∧ shr_m mrs1 * 2 ^ k ≤ Z.pos M) as [Hm1pos Hm1le].
{ rewrite Hm1. split; [apply Z.div_pos; lia|].
  rewrite Z.mul_comm. apply Z.mul_div_le; lia. }
assert (2 ^ (- E) = 2 ^ (- e1) * 2 ^ k) as HEk.
{ rewrite <- Z.pow_add_r by lia. f_equal; lia. }
assert (2 * 2 ^ k ≤ 2 ^ (- E)) as Hk2.
{ replace (- E) with (1 + k + (- E - k - 1)) by lia.
  rewrite !Z.pow_add_r, Z.pow_1_r by lia.
  assert (0 < 2 ^ (- E - k - 1)) by (apply Z.pow_pos_nonneg; lia). nia. }
assert (0 ≤ m2 < 256 * 2 ^ (- e1)) as Hm2lt by nia.
destruct (shr_fexp_spec m2 e1) as [Hm3 He3]; [lia|].
destruct (shr_fexp prec emax m2 e1 loc_Exact) as [mrs3 e3].
cbn [fst snd] in Hm3, He3.
remember (Z.max 0 (fexp prec emax (Zdigits2 m2 + e1) - e1)) as k' eqn:Ek'.
assert (Zdigits2 m2 ≤ 8 - e1) as Hd2.
{ apply Zdigits2_upper; [lia..|].
  replace (8 - e1) with (8 + - e1) by lia.
  rewrite Z.pow_add_r by lia. change (2 ^ 8) with 256. lia. }
assert (0 ≤ k' ∧ e3 ≤ -45) as [Hk' He3']
  by (unfold fexp, emin in Ek'; change prec with 53 in Ek';
      change emax with 1024 in Ek'; lia).
assert (0 < 2 ^ k') as Hpk' by (apply Z.pow_pos_nonneg; lia).
assert (0 < 2 ^ (- e3)) as Hpe3 by (apply Z.pow_pos_nonneg; lia).
assert (2 ^ (- e1) = 2 ^ (- e3) * 2 ^ k') as He13.
{ rewrite <- Z.pow_add_r by lia. f_equal; lia. }
assert (0 ≤ shr_m mrs3 ∧ shr_m mrs3 * 2 ^ k' ≤ m2) as [Hm3pos Hm3le].
{ rewrite Hm3. split; [apply Z.div_pos; lia|].
  rewrite Z.mul_comm. apply Z.mul_div_le; lia. }
destruct (shr_m mrs3) as [|m3|m3] eqn:Em3; [by exists 0| |lia].
replace (e3 <=? emax - prec) with true
  by (symmetry; apply Z.leb_le; change prec with 53;
      change emax with 1024; lia).
simpl. eexists; split; [done|].
rewrite Z.shiftl_div_pow2 by lia. split; [apply Z.div_pos; lia|].
assert (Z.pos m3 `div` 2 ^ (- e3) < 256); [|lia].
apply Z.div_lt_upper_bound; [done|]. nia.
Qed.


Lemma SFleb_one (m : positive) (e : Z) :
SFleb (S754_finite false m e) (S754_finite false 4503599627370496 (-52))
= true →
e < -52 ∨ (e = -52 ∧ Z.pos m ≤ 4503599627370496).
Proof.
unfold SFleb, SFcompare.
destruct (Z.compare_spec e (-52)) as [Heq|Hlt|Hgt]; [|by left|done].
rewrite Pos.compare_cont_spec. intros Hle. right. split; [done|].
destruct (Pos.compare_spec m 4503599627370496) as [Hc|Hc|Hc].
- rewrite Hc. apply Z.le_refl.
- apply Pos2Z.pos_le_pos, Pos.lt_le_incl, Hc.
- discriminate Hle.
Qed.

Lemma canonical_mantissa_lt (m : positive) (e : Z) :
bounded prec emax m e = true → Z.pos m < 2 ^ 53.
Proof.
unfold bounded, canonical_mantissa.
intros [Hcanon _]%andb_prop. apply Z.eqb_eq in Hcanon.
unfold fexp, emin in Hcanon. change prec with 53 in Hcanon.
change emax with 1024 in Hcanon.
assert (Z.pos (digits2_pos m) ≤ 53) as Hdig by lia.
rewrite digits2_pos_size in Hdig. pose proof (Pos.size_gt m) as Hgt.
assert (Z.pos m < 2 ^ Z.pos (Pos.size m))
  by (rewrite <- Pos2Z.inj_pow; lia).
assert (2 ^ Z.pos (Pos.size m) ≤ 2 ^ 53)
  by (apply Z.pow_le_mono_r; lia). lia.
Qed.

Lemma to_int_channel (x : float) :
PrimFloat.leb 0 x = true → PrimFloat.leb x 1 = true →
∃ n, int_of_spec (Prim2SF (x * 255)%float) = Ok n ∧ 0 ≤ n ≤ 255.
Proof.
rewrite (leb_spec 0 x), (leb_spec x 1), (mul_spec x 255). intros H0 H1.
pose proof (Prim2SF_valid x) as Hvalid.
replace (Prim2SF 0) with (S754_zero false) in H0 by (by vm_compute).
replace (Prim2SF 1) with (S754_finite false 4503599627370496 (-52)) in H1
  by (by vm_compute).
replace (Prim2SF 255) with (S754_finite false 8972014882652160 (-45))
  by (by vm_compute).
unfold SF64mul, SFmul.
destruct (Prim2SF x) as [s|s| |s m e].
- by exists 0.
- by destruct s.
- done.
- destruct s; [done|]. cbn [xorb].
  apply canonical_mantissa_lt in Hvalid.
  apply SFleb_one in H1.
  assert (4503599627370496 = 2 ^ 52) as E52 by (by vm_compute).
  assert (8972014882652160 = 255 * 2 ^ 45) as E255 by (by vm_compute).
  assert (e ≤ -52 ∧ Z.pos m ≤ 2 ^ (- e)) as [He Hm].
  { destruct H1 as [Hlt|[-> Hle]].
    - split; [lia|].
      assert (2 ^ 53 ≤ 2 ^ (- e)) by (apply Z.pow_le_mono_r; lia). lia.
    - split; [lia|]. replace (- -52) with 52 by lia. lia. }
  apply binary_round_aux_below_256; [lia|].
  rewrite Pos2Z.inj_mul.
  replace (- (e + -45)) with (45 + - e) by lia.
  rewrite Z.pow_add_r by lia.
  assert (0 < 2 ^ 45) by (by vm_compute).
  nia.
Qed.

End FloatRounding.

(** ** The conversion to hexadecimal strings *)

Section RGBToHex.

Lemma to_int_int_of_spec (x : float) : to_int x = int_of_spec (Prim2SF x).
Proof. reflexivity. Qed.

(** A channel in [0, 1] is scaled and truncated into [0, 255]. *)
Lemma to_int_unit_interval (x : float) :
  unit_interval x → ∃ n, to_int (x * 255)%float = Ok n ∧ 0 ≤ n ≤ 255.
Proof. intros [H0 H1]. rewrite to_int_int_of_spec. by apply to_int_channel. Qed.

(** Below 256 the format is the two digits. *)
Lemma format_02x_hex2 (n : Z) : 0 ≤ n ≤ 255 → format_02x n = hex2 n.
Proof.
  intros Hn.
  assert (n ∈ seqZ 0 256) as Hin by (apply elem_of_seqZ; lia).
  assert (forallb (fun n => bool_decide (format_02x n = hex2 n))
            (seqZ 0 256) = true) as Hall by (by vm_compute).
  rewrite forallb_forall in Hall.
  apply list_elem_of_In, Hall in Hin. by apply bool_decide_eq_true in Hin.
Qed.

(** The scaled channels of a colour. *)
Lemma scale_unit_RGB (RGBlist : list RGB) :
  Forall unit_RGB RGBlist →
  ∃ RGB256,
    mapM (fun '(r, g, b) =>
            r ← to_int (r * 255)%float; g ← to_int (g * 255)%float;
            b ← to_int (b * 255)%float; Ok (r, g, b)) RGBlist
    = Ok RGB256 ∧
    Forall2 (fun (c : RGB) (t : Z * Z * Z) =>
               to_int (c.1.1 * 255)%float = Ok t.1.1 ∧
               to_int (c.1.2 * 255)%float = Ok t.1.2 ∧
               to_int (c.2 * 255)%float = Ok t.2 ∧
               0 ≤ t.1.1 ≤ 255 ∧ 0 ≤ t.1.2 ≤ 255 ∧ 0 ≤ t.2 ≤ 255)
      RGBlist RGB256.
Proof.
  induction 1 as [|[[r g] b] l (Hr & Hg & Hb) _ (l256 & IH & Hall)].
  { exists []. split; [done|constructor]. }
  destruct (to_int_unit_interval r Hr) as (r' & Er & ?).
  destruct (to_int_unit_interval g Hg) as (g' & Eg & ?).
  destruct (to_int_unit_interval b Hb) as (b' & Eb & ?).
  exists ((r', g', b') :: l256). split.
  - cbn [mapM]. rewrite Er, Eg, Eb. cbn [mbind result_bind].
    cbn [mapM] in IH. by rewrite IH.
  - constructor; [|done]. cbn [fst snd]. split_and!; (assumption || lia).
Qed.

(** The strings of colours within the gamut. *)
Lemma RGB_to_hex_in_gamut (RGBlist : list RGB) :
  Forall unit_RGB RGBlist →
  ∃ colors, RGB_to_hex RGBlist = Ok colors ∧ Forall2 hex_of RGBlist colors.
Proof.
  intros Hunit. destruct (scale_unit_RGB RGBlist Hunit) as (RGB256 & E & Hall).
  unfold RGB_to_hex. rewrite E. cbn [mbind result_bind].
  eexists. split; [done|]. apply Forall2_fmap_r.
  eapply Forall2_impl; [exact Hall|].
  intros [[r g] b] [[r' g'] b'] (Er & Eg & Eb & Hr & Hg & Hb).
  cbn [fst snd] in *. exists r', g', b'. cbn [fst snd].
  split_and!; try (assumption || lia). by rewrite !format_02x_hex2.
Qed.

(** C9, as the code has it. For RGB triples with every channel in [0, 1],
    [RGB_to_hex] returns one string per triple, '#' followed by two
    lower-case hexadecimal digits per channel, which encode int(channel *
    255): the product truncated toward zero, not rounded. *)
Theorem RGB_to_hex_truncates (RGBlist : list RGB) :
  Forall unit_RGB RGBlist →
  ∃ colors, RGB_to_hex RGBlist = Ok colors ∧ Forall2 hex_of RGBlist colors.
Proof. exact (RGB_to_hex_in_gamut RGBlist). Qed.

End RGBToHex.

Lemma RGB_to_hex_truncates_witness :
  Forall unit_RGB [(0.999, 0.5, 0)%float; (1, 0.7, 0.56)%float] ∧
  ∃ colors,
    RGB_to_hex [(0.999, 0.5, 0)%float; (1, 0.7, 0.56)%float] = Ok colors ∧
    Forall2 hex_of [(0.999, 0.5, 0)%float; (1, 0.7, 0.56)%float] colors.
Proof.
  assert (Forall unit_RGB [(0.999, 0.5, 0)%float; (1, 0.7, 0.56)%float])
    as Hunit by (repeat constructor).
  split; [exact Hunit|].
  exact (RGB_to_hex_truncates _ Hunit).
Defined.

(** C9 as stated fails: the channel 0.999 scales to 254.745, which the code
    truncates to 254 ("fe") where rounding gives 255 ("ff"); and 0.5 scales
    to 127.5, truncated to 127 ("7f") where rounding gives 128 ("80"). *)
Lemma RGB_to_hex_does_not_round :
  RGB_to_hex [(0.999, 0.5, 0)%float] = Ok ["#fe7f00"] ∧
  RGB_to_hex_rounding [(0.999, 0.5, 0)%float] = Ok ["#ff8000"].
Proof. split; by vm_compute. Qed.

(** ** numpy.unique *)

Section Unique.

Implicit Types (xs : list Z) (x y : Z).

Lemma drop_repeats_elem xs x : x ∈ drop_repeats xs ↔ x ∈ xs.
Proof.
  induction xs as [|a [|b xs'] IH]; [done|done|].
  change (drop_repeats (a :: b :: xs'))
    with (if bool_decide (a = b) then drop_repeats (b :: xs')
          else a :: drop_repeats (b :: xs')).
  case_bool_decide as Hab.
  - rewrite IH. subst. rewrite !elem_of_cons. tauto.
  - rewrite !elem_of_cons, IH, !elem_of_cons. tauto.
Qed.

Lemma drop_repeats_sorted xs :
  StronglySorted Z.le xs → StronglySorted Z.lt (drop_repeats xs).
Proof.
  induction xs as [|a [|b xs'] IH]; intros Hsorted.
  - constructor.
  - repeat constructor.
  - change (drop_repeats (a :: b :: xs'))
      with (if bool_decide (a = b) then drop_repeats (b :: xs')
            else a :: drop_repeats (b :: xs')).
    apply StronglySorted_inv in Hsorted as [Htail Hle].
    case_bool_decide as Hab; [by apply IH|].
    constructor; [by apply IH|].
    apply Forall_forall. intros y Hy.
    apply (proj1 (drop_repeats_elem _ _)) in Hy.
    rewrite Forall_forall in Hle.
    apply elem_of_cons in Hy as [->|Hy].
    + assert (a ≤ b) by (apply Hle; left). lia.
    + apply StronglySorted_inv in Htail as [_ Hb].
      rewrite Forall_forall in Hb.
      assert (a ≤ b) by (apply Hle; left).
      assert (b ≤ y) by by apply Hb. lia.
Qed.

Lemma numpy_unique_elem xs x : x ∈ numpy_unique xs ↔ x ∈ xs.
Proof.
  unfold numpy_unique. rewrite drop_repeats_elem.
  by rewrite (merge_sort_Permutation Z.le xs).
Qed.

Lemma numpy_unique_sorted xs : StronglySorted Z.lt (numpy_unique xs).
Proof. apply drop_repeats_sorted, (StronglySorted_merge_sort Z.le). Qed.

Lemma StronglySorted_lt_NoDup xs : StronglySorted Z.lt xs → NoDup xs.
Proof.
  induction 1 as [|x xs _ IH Hlt]; constructor; [|done].
  rewrite Forall_forall in Hlt. intros Hin%Hlt. lia.
Qed.

Lemma numpy_unique_NoDup xs : NoDup (numpy_unique xs).
Proof. apply StronglySorted_lt_NoDup, numpy_unique_sorted. Qed.

(** The result depends on the set of values alone. *)
Lemma numpy_unique_ext xs ys :
  (∀ x, x ∈ xs ↔ x ∈ ys) → numpy_unique xs = numpy_unique ys.
Proof.
  intros Hsame.
  apply (StronglySorted_unique_strong Z.lt);
    [intros; lia|apply numpy_unique_sorted..|].
  apply NoDup_Permutation; [apply numpy_unique_NoDup..|].
  intros x. by rewrite !numpy_unique_elem.
Qed.

Lemma numpy_unique_nil xs : numpy_unique xs = [] ↔ xs = [].
Proof.
  split; [|by intros ->].
  intros Hnil. destruct xs as [|x xs]; [done|].
  assert (x ∈ numpy_unique (x :: xs)) as Hin
    by (apply numpy_unique_elem; left).
  rewrite Hnil in Hin. by apply elem_of_nil in Hin.
Qed.

End Unique.

(** ** The colour map *)

Section Colormap.

(** C4. The colour map depends on the set of cluster ids alone: two lists
    with the same distinct values, in any order and with any
    multiplicities, get the same map (and the same outcome in general). *)
Theorem colormap_order_independent (valuelist1 valuelist2 : list Z) :
  (∀ x, x ∈ valuelist1 ↔ x ∈ valuelist2) →
  colormap valuelist1 = colormap valuelist2.
Proof.
  intros Hsame. unfold colormap.
  by rewrite (numpy_unique_ext valuelist1 valuelist2 Hsame).
Qed.

End Colormap.

Lemma colormap_order_independent_witness :
  (∀ x, x ∈ [7; 3; -1; 3; 7; 7] ↔ x ∈ [-1; 3; 7]) ∧
  colormap [7; 3; -1; 3; 7; 7] = colormap [-1; 3; 7].
Proof.
  assert (∀ x : Z, x ∈ [7; 3; -1; 3; 7; 7] ↔ x ∈ [-1; 3; 7]) as Hsame
    by (intros x; rewrite !elem_of_cons, !elem_of_nil; tauto).
  split; [exact Hsame|].
  exact (colormap_order_independent _ _ Hsame).
Defined.

(** ** Dicts, loops over lists *)

Section Runtime.

Context `{Countable K} {V : Type}.
Implicit Types (pairs : list (K * V)) (d : gmap K V) (k : K) (v : V).

Lemma foldl_insert_lookup pairs d k v :
  NoDup (pairs.*1) →
  foldl (fun d kv => <[kv.1 := kv.2]> d) d pairs !! k = Some v ↔
  (k, v) ∈ pairs ∨ ((k ∉ pairs.*1) ∧ d !! k = Some v).
Proof.
  revert d. induction pairs as [|[k0 v0] pairs IH]; intros d Hnodup.
  { cbn [foldl]. rewrite elem_of_nil. split.
    - intros Hd. right. split; [apply not_elem_of_nil|done].
    - by intros [[]|[_ ?]]. }
  rewrite fmap_cons in Hnodup. cbn [fst] in Hnodup.
  apply NoDup_cons in Hnodup as [Hk0 Hnodup].
  cbn [foldl fst snd]. rewrite (IH _ Hnodup).
  rewrite fmap_cons, not_elem_of_cons, elem_of_cons. cbn [fst].
  assert (∀ v', (k0, v') ∈ pairs → False) as Hfresh.
  { intros v' Hin. apply Hk0, list_elem_of_fmap. by exists (k0, v'). }
  destruct (decide (k = k0)) as [->|Hne].
  - rewrite lookup_insert_eq. split.
    + intros [Hin|[_ [= ->]]]; [by destruct (Hfresh v)|by left; left].
    + intros [[[= ->]|Hin]|[[? _] _]]; [by right|by destruct (Hfresh v)|done].
  - rewrite lookup_insert_ne by done. split.
    + intros [Hin|[? ?]]; [left; by right|by right].
    + intros [[[= ? ?]|Hin]|[[_ ?] ?]]; [done|by left|by right].
Qed.

Lemma dict_lookup pairs k v :
  NoDup (pairs.*1) → dict pairs !! k = Some v ↔ (k, v) ∈ pairs.
Proof.
  intros Hnodup. unfold dict. rewrite (foldl_insert_lookup _ _ _ _ Hnodup).
  rewrite lookup_empty. split; [by intros [?|[_ ?]]|by left].
Qed.

End Runtime.

Section MapM.

Context {A B : Type}.
Implicit Types (f : A → result B) (l : list A) (r : list B).

Lemma mapM_cons f x l :
  mapM f (x :: l) = y ← f x; k ← mapM f l; Ok (y :: k).
Proof. reflexivity. Qed.

Lemma mapM_Ok_Forall2 f l r :
  mapM f l = Ok r → Forall2 (fun x y => f x = Ok y) l r.
Proof.
  revert r. induction l as [|x l IH]; intros r.
  { intros [= <-]. constructor. }
  rewrite mapM_cons. destruct (f x) as [y|] eqn:Ey; [|done].
  cbn [mbind result_bind]. destruct (mapM f l) as [k|] eqn:Ek; [|done].
  intros [= <-]. constructor; [done|by apply IH].
Qed.

Lemma mapM_Forall2_Ok f l r :
  Forall2 (fun x y => f x = Ok y) l r → mapM f l = Ok r.
Proof.
  induction 1 as [|x y l r Ey _ IH]; [done|].
  rewrite mapM_cons, Ey. cbn [mbind result_bind]. by rewrite IH.
Qed.

Lemma mapM_take f l r n :
  mapM f l = Ok r → mapM f (take n l) = Ok (take n r).
Proof.
  intros Hall%mapM_Ok_Forall2. by apply mapM_Forall2_Ok, Forall2_take.
Qed.

Lemma mapM_ext f g l : (∀ x, f x = g x) → mapM f l = mapM g l.
Proof.
  intros Hfg. induction l as [|x l IH]; [done|].
  by rewrite !mapM_cons, Hfg, IH.
Qed.

Lemma mapM_length f l r : mapM f l = Ok r → length r = length l.
Proof. intros Hall%mapM_Ok_Forall2. symmetry. by eapply Forall2_length. Qed.

End MapM.

Lemma mapM_fmap {A B C} (f : B → result C) (g : A → B) (l : list A) :
  mapM f (g <$> l) = mapM (f ∘ g) l.
Proof.
  induction l as [|x l IH]; [done|].
  by rewrite fmap_cons, !mapM_cons, IH.
Qed.

Lemma zip_replicate_r {A B} (l : list A) (n : nat) (v : B) :
  zip l (replicate n v) = (fun x => (x, v)) <$> take n l.
Proof.
  revert n. induction l as [|x l IH]; intros [|n]; simpl; [done..|].
  by rewrite IH.
Qed.

(** ** The colours generated *)

Lemma generate_RGB_grid (perm N : Z) :
  generate_RGB perm N
  = match grid perm with
    | [] => Raise ValueError
    | _ :: _ => mapM grid_color (take (Z.to_nat N) (grid perm))
    end.
Proof.
  unfold generate_RGB. fold (grid perm).
  destruct (grid perm) as [|hs HS] eqn:Egrid; [done|].
  cbn [zip_star unpack2 mbind result_bind]. unfold zip3.
  rewrite zip_fst_snd, zip_replicate_r, mapM_fmap.
  apply mapM_ext. by intros [h s].
Qed.

Lemma generate_RGB_prefix (perm N N' : Z) (cs : list RGB) :
  generate_RGB perm N = Ok cs → N' ≤ N →
  generate_RGB perm N' = Ok (take (Z.to_nat N') cs).
Proof.
  rewrite !generate_RGB_grid. destruct (grid perm) as [|hs HS]; [done|].
  intros Hcs Hle. apply (mapM_take _ _ _ (Z.to_nat N')) in Hcs.
  rewrite take_take in Hcs.
  by replace (Z.to_nat N' `min` Z.to_nat N)%nat with (Z.to_nat N') in Hcs by lia.
Qed.

(** ** Colours that differ *)

Section FloatOrder.









End FloatOrder.

(** ** The grid, hue by hue *)

Section GridRows.

Lemma all_from_spec (check : Z → bool) (n : nat) (N k : Z) :
  all_from check n N = true → N ≤ k < N + Z.of_nat n → check k = true.
Proof.
  revert N. induction n as [|n IH]; intros N Hall Hk; [lia|].
  cbn [all_from] in Hall. apply andb_prop in Hall as [HN Hrest].
  destruct (decide (k = N)) as [->|Hne]; [done|].
  apply (IH (N + 1)); [done|lia].
Qed.

Lemma product_cons {A B} (x : A) (a : list A) (b : list B) :
  product (x :: a) b = (pair x <$> b) ++ product a b.
Proof. reflexivity. Qed.

(** One hue of the grid: the colours of [hue_row] are those of
    [hsv_to_rgb]. *)
Lemma hue_row_colors (perm : Z) (S : list float) (x : Z) (row : list RGB) :
  hue_row perm S x = Ok row →
  Forall2 (fun hs c => grid_color hs = Ok c)
    (pair (float_of_int x * 1 / float_of_int perm)%float <$> S) row.
Proof.
  unfold hue_row.
  destruct (to_int _) as [i|] eqn:Ei; [|done].
  cbn [mbind result_bind]. intros [= <-].
  apply Forall2_fmap, Forall_Forall2_diag, Forall_forall. intros s _.
  unfold grid_color, hsv_to_rgb. cbn [fst snd].
  destruct (PrimFloat.eqb s 0); [done|].
  rewrite Ei. cbn [mbind result_bind]. unfold assemble. done.
Qed.

Lemma hue_rows_colors (perm : Z) (S : list float) (xs : list Z)
    (rows : list (list RGB)) :
  mapM (hue_row perm S) xs = Ok rows →
  Forall2 (fun hs c => grid_color hs = Ok c)
    (product
       ((fun x => float_of_int x * 1 / float_of_int perm)%float <$> xs) S)
    (concat rows).
Proof.
  intros Hrows%mapM_Ok_Forall2.
  induction Hrows as [|x row xs rows Hrow _ IH]; [constructor|].
  rewrite fmap_cons, product_cons. cbn [concat].
  apply Forall2_app; [by apply hue_row_colors|done].
Qed.

(** The colours computed hue by hue are the colours [generate_RGB]
    generates for a full grid. *)
Lemma grid_rows_generate_RGB (perm : Z) (cs : list RGB) :
  grid_rows perm = Ok cs → length cs = Z.to_nat (perm * perm) → 1 ≤ perm →
  generate_RGB perm (perm * perm) = Ok cs.
Proof.
  unfold grid_rows. intros Hrows Hlen Hperm.
  destruct (mapM _ _) as [rows|] eqn:Erows; [|done].
  cbn [mbind result_bind] in Hrows. injection Hrows as <-.
  apply hue_rows_colors, mapM_Forall2_Ok in Erows. fold (grid perm) in Erows.
  rewrite generate_RGB_grid.
  destruct (grid perm) as [|hs HS] eqn:Egrid.
  { injection Erows as Hnil. rewrite <- Hnil in Hlen. cbn [length] in Hlen.
    nia. }
  apply (mapM_take _ _ _ (Z.to_nat (perm * perm))) in Erows.
  rewrite Erows. f_equal. apply take_ge. lia.
Qed.

End GridRows.

Section ColormapInjective.

(** The grid sizes for 1 to 10000 values, by evaluation. *)
Lemma grid_size_table : all_from grid_size_fits (Z.to_nat 10000) 1 = true.
Proof. vm_cast_no_check (eq_refl true). Qed.

(** The colours of the grids of size 1 to 100, by evaluation. *)
Lemma grid_table : all_from grid_ascending (Z.to_nat 100) 1 = true.
Proof. vm_cast_no_check (eq_refl true). Qed.

Lemma grid_size_small (N : Z) :
  1 ≤ N ≤ 10000 →
  ∃ perm, grid_size N = Ok perm ∧ 1 ≤ perm ≤ 100 ∧ N ≤ perm * perm.
Proof.
  intros HN.
  pose proof (all_from_spec _ _ _ N grid_size_table) as Hfits.
  unfold grid_size_fits in Hfits.
  assert (1 ≤ N < 1 + Z.of_nat (Z.to_nat 10000)) as Hrange by lia.
  destruct (grid_size N) as [perm|]; [|by discriminate (Hfits Hrange)].
  exists perm. split; [done|].
  specialize (Hfits Hrange). by apply bool_decide_eq_true in Hfits.
Qed.




End ColormapInjective.


(** * Further properties *)

(** ** The features of a neighbourhood *)

Section Neighbors.

Variable cur : Db.

Lemma set_qualifier_twice (feature : SeqFeature) (key : string) (v w : Z) :
  set_qualifier (set_qualifier feature key v) key w
  = set_qualifier feature key w.
Proof.
  unfold set_qualifier. cbn. by rewrite insert_insert_eq.
Qed.

(** One iteration on a row the library accepts: the placeholder cluster id
    -1 of [makeSeqFeature] is overwritten by the cluster id of the row. *)
Lemma neighbor_feature_makeSeqFeature (neargene : Neighbor)
    (geneinfo : GeneInfo) :
  has_info cur neargene geneinfo → gi8 geneinfo ∈ [1; -1; 0] →
  (feature ← makeSeqFeature (nb1 neargene) cur;
   Ok (set_qualifier feature "cluster_id" (nb8 neargene)))
  = Ok (neighbor_feature neargene geneinfo).
Proof.
  intros [rest Hinfo] Hstrand. unfold makeSeqFeature. rewrite Hinfo.
  cbn [mbind result_bind index lookup list_lookup]. unfold SeqFeature.new.
  rewrite (bool_decide_eq_true_2 _ Hstrand). cbn [mbind result_bind].
  rewrite set_qualifier_twice. done.
Qed.

(** One iteration on a row whose strand the library refuses. *)
Lemma makeSeqFeature_bad_strand (neargene : Neighbor) (geneinfo : GeneInfo) :
  has_info cur neargene geneinfo → gi8 geneinfo ∉ [1; -1; 0] →
  makeSeqFeature (nb1 neargene) cur = Raise ValueError.
Proof.
  intros [rest Hinfo] Hstrand. unfold makeSeqFeature. rewrite Hinfo.
  cbn [mbind result_bind index lookup list_lookup]. unfold SeqFeature.new.
  by rewrite (bool_decide_eq_false_2 _ Hstrand).
Qed.

(** The loop over rows the library accepts, followed by any rows. *)
Lemma neighbors_loop_app (known : list Neighbor) (infos : list GeneInfo)
    (rest : list Neighbor) (seqfeatures : list SeqFeature) :
  Forall2 (has_info cur) known infos → Forall well_formed infos →
  for_ (known ++ rest) seqfeatures (fun seqfeatures neargene =>
    feature ← makeSeqFeature (nb1 neargene) cur;
    let feature := set_qualifier feature "cluster_id" (nb8 neargene) in
    Ok (seqfeatures ++ [feature]))
  = for_ rest (seqfeatures ++ zip_with neighbor_feature known infos)
      (fun seqfeatures neargene =>
         feature ← makeSeqFeature (nb1 neargene) cur;
         let feature := set_qualifier feature "cluster_id" (nb8 neargene) in
         Ok (seqfeatures ++ [feature])).
Proof.
  intros Hall. revert seqfeatures.
  induction Hall as [|neargene geneinfo known infos Hinfo _ IH];
    intros seqfeatures Hformed.
  { cbn [app zip_with]. by rewrite app_nil_r. }
  apply Forall_cons in Hformed as [[Hstrand _] Hformed].
  cbn [app for_ zip_with]. cbv zeta.
  pose proof (neighbor_feature_makeSeqFeature _ _ Hinfo Hstrand) as Hfeature.
  destruct (makeSeqFeature (nb1 neargene) cur) as [feature|]; [|done].
  cbn [mbind result_bind] in Hfeature |- *.
  assert (set_qualifier feature "cluster_id" (nb8 neargene)
          = neighbor_feature neargene geneinfo) as -> by congruence.
  rewrite IH by done. by rewrite <- app_assoc.
Qed.

Lemma neighbors_loop (outdata : list Neighbor) (infos : list GeneInfo) :
  Forall2 (has_info cur) outdata infos → Forall well_formed infos →
  for_ outdata [] (fun seqfeatures neargene =>
    feature ← makeSeqFeature (nb1 neargene) cur;
    let feature := set_qualifier feature "cluster_id" (nb8 neargene) in
    Ok (seqfeatures ++ [feature]))
  = Ok (zip_with neighbor_feature outdata infos).
Proof.
  intros Hinfos Hformed.
  pose proof (neighbors_loop_app outdata infos [] [] Hinfos Hformed) as Hloop.
  rewrite app_nil_r in Hloop. by rewrite Hloop.
Qed.

(** The features of a neighbourhood whose rows the library accepts. *)
Lemma neighbors_returned (genename : option string)
    (clusterrunid : clusterrun) (outdata : list Neighbor)
    (infos : list GeneInfo) :
  getGeneNeighborhoods cur genename clusterrunid = Ok outdata →
  Forall2 (has_info cur) outdata infos →
  Forall well_formed infos →
  makeSeqFeaturesForGeneNeighbors genename clusterrunid cur
  = Ok (zip_with neighbor_feature outdata infos).
Proof.
  intros Hrows Hinfos Hformed. unfold makeSeqFeaturesForGeneNeighbors.
  rewrite Hrows. cbn [mbind result_bind]. by rewrite (neighbors_loop _ infos).
Qed.

(** X1. When the database has, for the gene of every neighbour row, gene
    information that the library accepts (strand +1, -1 or 0, start not
    after stop), [makeSeqFeaturesForGeneNeighbors] returns one feature per
    row, in the order of the rows: located at the gene's start and stop, on
    the gene's strand, with the gene's id, and with the row's cluster id as
    its only qualifier (the placeholder -1 is gone). *)
Theorem neighbor_features (genename : option string)
    (clusterrunid : clusterrun) (outdata : list Neighbor)
    (infos : list GeneInfo) :
  getGeneNeighborhoods cur genename clusterrunid = Ok outdata →
  Forall2 (has_info cur) outdata infos →
  Forall well_formed infos →
  makeSeqFeaturesForGeneNeighbors genename clusterrunid cur
  = Ok (zip_with
          (fun neargene geneinfo =>
             SeqFeature.mk
               (Build_FeatureLocation (gi5 geneinfo) (gi6 geneinfo))
               (gi8 geneinfo) (nb1 neargene)
               {[ "cluster_id" := nb8 neargene ]})
          outdata infos).
Proof.
  intros Hrows Hinfos Hformed. unfold makeSeqFeaturesForGeneNeighbors.
  rewrite Hrows. cbn [mbind result_bind]. by rewrite (neighbors_loop _ infos).
Qed.

(** X2. A neighbour row whose gene has no row of gene information makes the
    whole assembly fail: [makeSeqFeature] indexes the empty answer of
    [getGeneInfo], and the IndexError is not caught. The rows before it are
    rows the library accepts (otherwise the failure is theirs); the rows
    after it are any rows. *)
Theorem neighbor_without_info (genename : option string)
    (clusterrunid : clusterrun) (known : list Neighbor) (infos : list GeneInfo)
    (unknown : Neighbor) (later : list Neighbor) :
  getGeneNeighborhoods cur genename clusterrunid
  = Ok (known ++ unknown :: later) →
  Forall2 (has_info cur) known infos →
  Forall well_formed infos →
  getGeneInfo cur [nb1 unknown] = Ok [] →
  makeSeqFeaturesForGeneNeighbors genename clusterrunid cur
  = Raise IndexError.
Proof.
  intros Hrows Hinfos Hformed Hnone. unfold makeSeqFeaturesForGeneNeighbors.
  rewrite Hrows. cbn [mbind result_bind].
  rewrite (neighbors_loop_app known infos) by done.
  cbn [for_]. unfold makeSeqFeature. by rewrite Hnone.
Qed.

(** X20. A neighbour row whose gene has a strand other than +1, -1 and 0
    makes the whole assembly fail with the ValueError of the SeqFeature
    constructor, when the rows before it are rows the library accepts;
    the rows after it are any rows. *)
Theorem neighbor_bad_strand (genename : option string)
    (clusterrunid : clusterrun) (known : list Neighbor) (infos : list GeneInfo)
    (bad : Neighbor) (geneinfo : GeneInfo) (later : list Neighbor) :
  getGeneNeighborhoods cur genename clusterrunid
  = Ok (known ++ bad :: later) →
  Forall2 (has_info cur) known infos →
  Forall well_formed infos →
  has_info cur bad geneinfo →
  gi8 geneinfo ≠ 1 ∧ gi8 geneinfo ≠ -1 ∧ gi8 geneinfo ≠ 0 →
  makeSeqFeaturesForGeneNeighbors genename clusterrunid cur
  = Raise ValueError.
Proof.
  intros Hrows Hinfos Hformed Hinfo (H1 & H2 & H3).
  unfold makeSeqFeaturesForGeneNeighbors.
  rewrite Hrows. cbn [mbind result_bind].
  rewrite (neighbors_loop_app known infos) by done.
  cbn [for_]. rewrite (makeSeqFeature_bad_strand bad geneinfo); [done..|].
  rewrite !elem_of_cons, elem_of_nil. tauto.
Qed.

End Neighbors.

Lemma neighbor_features_witness :
  makeSeqFeaturesForGeneNeighbors (Some Operon.thrL) Sample.run Operon.db
  = Ok [SeqFeature.mk (Build_FeatureLocation 190 255) 1 Operon.thrL
          {[ "cluster_id" := 12 ]};
        SeqFeature.mk (Build_FeatureLocation 337 2799) 1 Operon.thrA
          {[ "cluster_id" := 7 ]}].
Proof.
  apply (neighbor_features Operon.db (Some Operon.thrL) Sample.run
           [Build_Neighbor Operon.thrL 12; Build_Neighbor Operon.thrA 7]
           [Build_GeneInfo Operon.thrL 190 255 1;
            Build_GeneInfo Operon.thrA 337 2799 1]).
  - reflexivity.
  - repeat constructor; exists []; reflexivity.
  - compute_done.
Defined.

Lemma neighbor_without_info_witness :
  makeSeqFeaturesForGeneNeighbors (Some Operon.thrB) Sample.run Operon.db
  = Raise IndexError.
Proof.
  apply (neighbor_without_info Operon.db (Some Operon.thrB) Sample.run
           [Build_Neighbor Operon.thrA 7] [Build_GeneInfo Operon.thrA 337 2799 1]
           (Build_Neighbor Operon.ghost 5) [Build_Neighbor Operon.thrB 3]).
  - reflexivity.
  - repeat constructor; exists []; reflexivity.
  - compute_done.
  - reflexivity.
Defined.

Lemma neighbor_bad_strand_witness :
  makeSeqFeaturesForGeneNeighbors (Some Operon.odd) Sample.run Operon.db
  = Raise ValueError.
Proof.
  apply (neighbor_bad_strand Operon.db (Some Operon.odd) Sample.run
           [Build_Neighbor Operon.thrL 12] [Build_GeneInfo Operon.thrL 190 255 1]
           (Build_Neighbor Operon.odd 9) (Build_GeneInfo Operon.odd 5000 5600 2)
           [Build_Neighbor Operon.thrA 7]).
  - reflexivity.
  - repeat constructor; exists []; reflexivity.
  - compute_done.
  - exists []. reflexivity.
  - repeat split; discriminate.
Defined.

(** ** The gene closest to a hit *)

Section ClosestGene.

Variables (start stop N : Z).
Implicit Types (rows : list GeneInfo) (row : GeneInfo).

Lemma closest_gene_snoc rows r :
  closest_gene start stop N (rows ++ [r])
  = (if bool_decide (gene_distance start stop r
                     < (closest_gene start stop N rows).1)
     then (gene_distance start stop r, Some (gi0 r))
     else closest_gene start stop N rows).
Proof.
  unfold closest_gene. rewrite foldl_app. cbn [foldl].
  by destruct (foldl _ _ rows) as [minlen mingene].
Qed.

Lemma closest_after_rows rows :
  closest_after start stop N rows (closest_gene start stop N rows).
Proof.
  induction rows as [|r rows IH] using rev_ind.
  { split_and!; [done| |done]. by intros row ?%elem_of_nil. }
  rewrite closest_gene_snoc.
  destruct (closest_gene start stop N rows) as [minlen mingene].
  destruct IH as (HleN & Hlower & Hmin). cbn [fst snd] in *.
  case_bool_decide as Hcloser.
  - split_and!; cbn [fst snd].
    + lia.
    + intros row [Hrow| ->%list_elem_of_singleton]%elem_of_app; [|lia].
      specialize (Hlower row Hrow). lia.
    + split; [lia|]. exists (length rows), r. split_and!; [|done|done|].
      * by rewrite lookup_app_r, Nat.sub_diag.
      * intros j row' Hj Hrow'. rewrite lookup_app_l in Hrow' by done.
        apply list_elem_of_lookup_2, Hlower in Hrow'. lia.
  - split_and!; cbn [fst snd].
    + done.
    + intros row [Hrow| ->%list_elem_of_singleton]%elem_of_app; [|lia].
      by apply Hlower.
    + destruct mingene as [mingene|]; [|done].
      destruct Hmin as (HltN & i & row & Hi & Hid & Hdist & Hfirst).
      split; [done|]. exists i, row.
      assert (i < length rows)%nat by (by eapply lookup_lt_Some).
      split_and!; [by rewrite lookup_app_l|done|done|].
      intros j row' Hj Hrow'. rewrite lookup_app_l in Hrow' by lia.
      by apply (Hfirst j).
Qed.

(** X3. The search for the closest gene ends with no gene exactly when every
    gene is at a distance of [N] or more from the hit; otherwise it ends
    with the id of the first row, in the order of the rows, whose distance
    is the least of all rows, and that distance is below [N]. *)
Theorem closest_gene_first_nearest rows :
  let '(minlen, mingene) := closest_gene start stop N rows in
  (mingene = None ↔ ∀ row, row ∈ rows → N ≤ gene_distance start stop row) ∧
  ∀ g, mingene = Some g →
    ∃ i row,
      rows !! i = Some row ∧ gi0 row = g ∧
      gene_distance start stop row = minlen ∧ minlen < N ∧
      (∀ row', row' ∈ rows → minlen ≤ gene_distance start stop row') ∧
      (∀ j row', (j < i)%nat → rows !! j = Some row' →
                 minlen < gene_distance start stop row').
Proof.
  pose proof (closest_after_rows rows) as Hinv.
  destruct (closest_gene start stop N rows) as [minlen mingene].
  destruct Hinv as (HleN & Hlower & Hmin). cbn [fst snd] in *. split.
  - destruct mingene as [g|]; split; try done.
    + intros Hfar. destruct Hmin as (HltN & i & row & Hi & _ & Hdist & _).
      apply list_elem_of_lookup_2, Hfar in Hi. lia.
    + intros _ row Hrow. specialize (Hlower row Hrow). lia.
  - intros g [= ->].
    destruct Hmin as (HltN & i & row & Hi & Hid & Hdist & Hfirst).
    by exists i, row.
Qed.

(** The first row at the least distance, when that distance is below [N],
    is the one the search ends with. *)
Lemma closest_gene_first rows (i : nat) (closest : GeneInfo) :
  rows !! i = Some closest →
  gene_distance start stop closest < N →
  (∀ row, row ∈ rows →
          gene_distance start stop closest ≤ gene_distance start stop row) →
  (∀ j row, (j < i)%nat → rows !! j = Some row →
            gene_distance start stop closest < gene_distance start stop row) →
  (closest_gene start stop N rows).2 = Some (gi0 closest).
Proof.
  intros Hi Hnear Hleast Hfirst.
  pose proof (closest_after_rows rows) as Hinv.
  destruct (closest_gene start stop N rows) as [minlen mingene].
  destruct Hinv as (HleN & Hlower & Hmin). cbn [fst snd] in *.
  assert (minlen ≤ gene_distance start stop closest) as Hle
    by (apply Hlower; by eapply list_elem_of_lookup_2).
  destruct mingene as [g|]; [|lia].
  destruct Hmin as (HltN & i' & row' & Hi' & <- & Hdist & Hfirst').
  assert (gene_distance start stop closest ≤ minlen) as Hge
    by (rewrite <- Hdist; apply Hleast; by eapply list_elem_of_lookup_2).
  destruct (Nat.lt_trichotomy i i') as [Hlt|[->|Hgt]].
  - specialize (Hfirst' i closest Hlt Hi). lia.
  - congruence.
  - specialize (Hfirst i' row' Hgt Hi'). lia.
Qed.

End ClosestGene.

(** ** A hit with genes around it *)

Section HitNeighbors.

Variable cur : Db.

(** X4. A hit with genes in the window around it. Let [closest] be the
    first row, among the gene information of the genes of the window, whose
    distance to the hit is the least, and let this distance be below [N];
    let every row of the neighbourhood of that gene have gene information
    that the library accepts. Then the function writes nothing on stderr
    and returns one feature per neighbour row of that gene, in row order
    (at the neighbour's start and stop, on its strand, with its id and the
    row's cluster id), followed by the feature of the hit: at the hit's
    start and stop, on strand +1 when start < stop and -1 otherwise, with
    the hit id and the cluster id -1. The window is searched on the contig
    as the database names it: the entry of the sanitized contig in the
    contig list if there is one, else the contig of the id. *)
Theorem tblastn_with_neighbors (tblastn_id : string)
    (clusterrunid : clusterrun) (N : Z) (sanitizedToNot : gmap string string)
    (contig : string) (start stop : Z) (genes : list string)
    (geneinfo : list GeneInfo) (i : nat) (closest : GeneInfo)
    (outdata : list Neighbor) (infos : list GeneInfo) :
  getSanitizedContigList cur = Ok sanitizedToNot →
  splitTblastn cur tblastn_id = Ok (contig, start, stop) →
  getGenesInRegion cur (default contig (sanitizedToNot !! contig))
    (start - N) (stop + N) = Ok genes →
  genes ≠ [] →
  getGeneInfo cur genes = Ok geneinfo →
  geneinfo !! i = Some closest →
  gene_distance start stop closest < N →
  (∀ row, row ∈ geneinfo →
          gene_distance start stop closest ≤ gene_distance start stop row) →
  (∀ j row, (j < i)%nat → geneinfo !! j = Some row →
            gene_distance start stop closest < gene_distance start stop row) →
  getGeneNeighborhoods cur (Some (gi0 closest)) clusterrunid = Ok outdata →
  Forall2 (has_info cur) outdata infos →
  Forall well_formed infos →
  makeSeqObjectsForTblastnNeighbors tblastn_id clusterrunid cur N
  = ([],
     Ok (zip_with
           (fun neargene geneinfo =>
              SeqFeature.mk
                (Build_FeatureLocation (gi5 geneinfo) (gi6 geneinfo))
                (gi8 geneinfo) (nb1 neargene)
                {[ "cluster_id" := nb8 neargene ]})
           outdata infos
         ++ [SeqFeature.mk (Build_FeatureLocation start stop)
               (if bool_decide (start < stop) then 1 else -1) tblastn_id
               {[ "cluster_id" := -1 ]}])).
Proof.
  intros Hcontigs Hsplit Hgenes Hsome Hinfo Hi Hnear Hleast Hfirst Hrows
    Hinfos Hformed.
  pose proof (closest_gene_first start stop N geneinfo i closest
                Hi Hnear Hleast Hfirst) as Hclosest.
  rewrite <- tblastn_seqfeature_eq.
  unfold makeSeqObjectsForTblastnNeighbors.
  rewrite Hcontigs, Hsplit. unfold mbind, io_bind, lift; cbn [fst snd].
  rewrite Hgenes. cbn [fst snd].
  rewrite bool_decide_eq_false_2 by (by destruct genes).
  rewrite Hinfo. cbn [fst snd].
  destruct (closest_gene start stop N geneinfo) as [minlen mingene].
  cbn [snd] in Hclosest. subst mingene.
  by rewrite (neighbors_returned cur _ _ outdata infos).
Qed.

(** X5. Whatever the database answers and however the function ends, the
    function itself writes on stderr nothing, or the one warning that no
    gene is near the hit; and it writes the warning only when the search of
    the window returned no gene, in which case it returns the feature of the
    hit alone. No failure of a lookup is reported on stderr by this
    function: it is raised. *)
Theorem tblastn_stderr (tblastn_id : string) (clusterrunid : clusterrun)
    (N : Z) (log : list string) (outcome : result (list SeqFeature)) :
  makeSeqObjectsForTblastnNeighbors tblastn_id clusterrunid cur N
  = (log, outcome) →
  log = [] ∨
  ∃ contig start stop,
    splitTblastn cur tblastn_id = Ok (contig, start, stop) ∧
    (∃ searched, getGenesInRegion cur searched (start - N) (stop + N) = Ok [] ∧
                 log = [no_neighbors_warning tblastn_id N searched]) ∧
    outcome = Ok [tblastn_seqfeature tblastn_id start stop].
Proof.
  unfold makeSeqObjectsForTblastnNeighbors.
  destruct (getSanitizedContigList cur) as [sanitizedToNot|];
    unfold mbind, io_bind, lift; cbn [fst snd]; [|intros [= <- _]; by left].
  destruct (splitTblastn cur tblastn_id) as [[[contig start] stop]|] eqn:Hsplit;
    cbn [fst snd]; [|intros [= <- _]; by left].
  destruct (getGenesInRegion _ _ _ _) as [genes|] eqn:Hgenes; cbn [fst snd];
    [|intros [= <- _]; by left].
  case_bool_decide as Hnone; cbn [fst snd app].
  - intros [= <- <-]. right. exists contig, start, stop. split; [done|].
    split; [|done]. eexists. split; [|done].
    by destruct genes.
  - destruct (getGeneInfo cur genes) as [geneinfo|]; cbn [fst snd];
      [|intros [= <- _]; by left].
    destruct (closest_gene start stop N geneinfo) as [minlen mingene].
    destruct (makeSeqFeaturesForGeneNeighbors _ _ _); cbn [fst snd];
      intros [= <- _]; by left.
Qed.

End HitNeighbors.

Lemma tblastn_with_neighbors_witness :
  makeSeqObjectsForTblastnNeighbors "NC_000913_1_100_180" Sample.run
    Operon.db 200000
  = ([],
     Ok [SeqFeature.mk (Build_FeatureLocation 190 255) 1 Operon.thrL
           {[ "cluster_id" := 12 ]};
         SeqFeature.mk (Build_FeatureLocation 337 2799) 1 Operon.thrA
           {[ "cluster_id" := 7 ]};
         SeqFeature.mk (Build_FeatureLocation 100 180) 1
           "NC_000913_1_100_180" {[ "cluster_id" := -1 ]}]).
Proof.
  apply (tblastn_with_neighbors Operon.db "NC_000913_1_100_180" Sample.run
           200000 Sample.contigs "NC_000913_1" 100 180
           [Operon.thrL; Operon.thrA; Operon.thrB] Operon.genes
           0%nat (Build_GeneInfo Operon.thrL 190 255 1)
           [Build_Neighbor Operon.thrL 12; Build_Neighbor Operon.thrA 7]
           [Build_GeneInfo Operon.thrL 190 255 1;
            Build_GeneInfo Operon.thrA 337 2799 1]).
  - reflexivity.
  - reflexivity.
  - reflexivity.
  - discriminate.
  - reflexivity.
  - reflexivity.
  - reflexivity.
  - intros row Hrow.
    repeat (apply elem_of_cons in Hrow as [Hrow|Hrow];
            [rewrite Hrow; vm_compute; discriminate|]).
    by apply elem_of_nil in Hrow.
  - intros j row Hj. lia.
  - reflexivity.
  - repeat constructor; exists []; reflexivity.
  - compute_done.
Defined.

Lemma tblastn_stderr_witness :
  makeSeqObjectsForTblastnNeighbors "NC_000913_1_400_100" Sample.run
    Sample.lonely N_default
  = ([no_neighbors_warning "NC_000913_1_400_100" 200000 "NC_000913.1"],
     Ok [tblastn_seqfeature "NC_000913_1_400_100" 400 100]) ∧
  ([no_neighbors_warning "NC_000913_1_400_100" 200000 "NC_000913.1"] = [] ∨
   ∃ contig start stop,
     splitTblastn Sample.lonely "NC_000913_1_400_100"
     = Ok (contig, start, stop) ∧
     (∃ searched,
        getGenesInRegion Sample.lonely searched (start - N_default)
          (stop + N_default) = Ok [] ∧
        [no_neighbors_warning "NC_000913_1_400_100" 200000 "NC_000913.1"]
        = [no_neighbors_warning "NC_000913_1_400_100" N_default searched]) ∧
     Ok [tblastn_seqfeature "NC_000913_1_400_100" 400 100]
     = Ok [tblastn_seqfeature "NC_000913_1_400_100" start stop]).
Proof.
  split; [reflexivity|].
  apply (tblastn_stderr Sample.lonely "NC_000913_1_400_100" Sample.run
           N_default). reflexivity.
Defined.

(** ** The extent as a function of the coordinates *)

Section Extent.

Implicit Types (fs : list SeqFeature).

(** The extent is the only pair that bounds the coordinates and is made of
    two of them. *)
Lemma regionlength_unique fs (start end_ : Z) :
  (∀ f x, f ∈ fs → x ∈ coords f → end_ ≤ x ≤ start) →
  (∃ f, f ∈ fs ∧ start ∈ coords f) →
  (∃ f, f ∈ fs ∧ end_ ∈ coords f) →
  regionlength fs = Ok (start, end_).
Proof.
  intros Hbounds (fa & Hfa & Hsa) (fb & Hfb & Hsb).
  assert (fs ≠ []) as Hne by (intros ->; by apply elem_of_nil in Hfa).
  destruct (regionlength_nonempty fs Hne)
    as (s & e & -> & Hb & (fc & Hfc & Hsc) & (fd & Hfd & Hsd) & _).
  assert (end_ ≤ s ≤ start) by by apply (Hbounds fc).
  assert (end_ ≤ e ≤ start) by by apply (Hbounds fd).
  assert (e ≤ start ≤ s) by by apply (Hb fa).
  assert (e ≤ end_ ≤ s) by by apply (Hb fb).
  do 2 f_equal; lia.
Qed.

Lemma regionlength_Ok fs (start end_ : Z) :
  regionlength fs = Ok (start, end_) →
  (∀ f x, f ∈ fs → x ∈ coords f → end_ ≤ x ≤ start) ∧
  (∃ f, f ∈ fs ∧ start ∈ coords f) ∧
  (∃ f, f ∈ fs ∧ end_ ∈ coords f).
Proof.
  intros Hextent.
  destruct (regionlength_outcome fs) as [[_ Hraise]|[Hne _]];
    [congruence|].
  destruct (regionlength_nonempty fs Hne) as (s & e & Hse & Hb & Hs & He & _).
  rewrite Hextent in Hse. injection Hse as <- <-. done.
Qed.

(** X6. The extent depends on the set of start and end coordinates alone:
    two lists of features with the same coordinates, whatever their order,
    their number, and whichever coordinate is the start and whichever the
    end of a feature, have the same extent (or both fail). *)
Theorem regionlength_coordinates fs1 fs2 :
  (∀ x, (∃ f, f ∈ fs1 ∧ x ∈ coords f) ↔ (∃ f, f ∈ fs2 ∧ x ∈ coords f)) →
  regionlength fs1 = regionlength fs2.
Proof.
  intros Hsame.
  destruct (regionlength_outcome fs1) as [[-> ->]|[Hne1 [[s e] Hextent]]].
  { destruct fs2 as [|f fs2]; [done|].
    destruct (Hsame (loc_start (SeqFeature.location f))) as [_ Hback].
    destruct Hback as (f' & Hf' & _);
      [exists f; split; [left|unfold coords; left]|].
    by apply elem_of_nil in Hf'. }
  rewrite Hextent. symmetry.
  apply regionlength_Ok in Hextent as (Hb & Hs & He).
  apply regionlength_unique.
  - intros f x Hf Hx.
    destruct (proj2 (Hsame x)) as (f' & Hf' & Hx'); [by exists f|].
    by apply (Hb f').
  - by apply Hsame.
  - by apply Hsame.
Qed.

(** X7. The extent of two lists put together is the larger of the two starts
    and the smaller of the two ends. *)
Theorem regionlength_app fs1 fs2 (start1 end1 start2 end2 : Z) :
  regionlength fs1 = Ok (start1, end1) →
  regionlength fs2 = Ok (start2, end2) →
  regionlength (fs1 ++ fs2)
  = Ok (Z.max start1 start2, Z.min end1 end2).
Proof.
  intros (Hb1 & (fa & Hfa & Hsa) & (fb & Hfb & Hsb))%regionlength_Ok
         (Hb2 & (fc & Hfc & Hsc) & (fd & Hfd & Hsd))%regionlength_Ok.
  apply regionlength_unique.
  - intros f x [Hf|Hf]%elem_of_app Hx.
    + specialize (Hb1 f x Hf Hx). lia.
    + specialize (Hb2 f x Hf Hx). lia.
  - destruct (Z.max_spec start1 start2) as [[_ ->]|[_ ->]].
    + exists fc. split; [apply elem_of_app; by right|done].
    + exists fa. split; [apply elem_of_app; by left|done].
  - destruct (Z.min_spec end1 end2) as [[_ ->]|[_ ->]].
    + exists fb. split; [apply elem_of_app; by left|done].
    + exists fd. split; [apply elem_of_app; by right|done].
Qed.

End Extent.

Lemma regionlength_coordinates_witness :
  regionlength Operon.features = regionlength (reverse Operon.features).
Proof.
  apply (regionlength_coordinates Operon.features (reverse Operon.features)).
  intros x. split; intros (f & Hf & Hx); exists f; (split; [|exact Hx]).
  - apply elem_of_reverse. exact Hf.
  - apply elem_of_reverse in Hf. exact Hf.
Defined.

Lemma regionlength_app_witness :
  regionlength ([Sample.left_feature] ++ Operon.features) = Ok (3733, 100).
Proof.
  apply (regionlength_app [Sample.left_feature] Operon.features 500 100
           3733 190); reflexivity.
Defined.

(** ** Integers that convert to floats *)

Section FloatOfInt.

Lemma digits2_pos_iter_xO (m k : positive) :
  digits2_pos (Pos.iter xO m k) = (digits2_pos m + k)%positive.
Proof.
  induction k as [|k IH] using Pos.peano_ind.
  - cbn. by rewrite Pos.add_1_r.
  - rewrite Pos.iter_succ. cbn [digits2_pos]. rewrite IH. lia.
Qed.

(** The decomposition of a mantissa of 53 digits is left as it is. *)
Lemma binary_round_aux_exact (s : bool) (m : positive) (e : Z) :
  Z.pos (digits2_pos m) = 53 → -1074 ≤ e ≤ 971 →
  binary_round_aux prec emax s (Z.pos m) e loc_Exact = S754_finite s m e.
Proof.
  intros Hdigits He. unfold binary_round_aux.
  assert (shr_fexp prec emax (Z.pos m) e loc_Exact
          = (Build_shr_record (Z.pos m) false false, e)) as Hshr.
  { unfold shr_fexp. cbn [Zdigits2]. rewrite Hdigits.
    replace (fexp prec emax (53 + e) - e) with 0
      by (unfold fexp, emin; change prec with 53; change emax with 1024;
          lia).
    done. }
  rewrite Hshr. cbn [shr_m loc_of_shr_record round_nearest_even].
  rewrite Hshr. cbn [shr_m].
  replace (e <=? emax - prec) with true; [done|].
  symmetry. apply Z.leb_le. change prec with 53. change emax with 1024. lia.
Qed.

Lemma binary_round_small (s : bool) (m : positive) :
  Z.pos m < 2 ^ 53 →
  ∃ m' e', binary_round prec emax s m 0 = S754_finite s m' e' ∧
           SpecFloat.valid_binary prec emax (S754_finite s m' e') = true.
Proof.
  intros Hm. unfold binary_round.
  assert (1 ≤ Z.pos (digits2_pos m) ≤ 53) as Hd
    by (split; [lia|apply digits2_pos_upper; lia]).
  replace (fexp prec emax (Z.pos (digits2_pos m) + 0))
    with (Z.pos (digits2_pos m) - 53)
    by (unfold fexp, emin; change prec with 53; change emax with 1024; lia).
  unfold shl_align.
  destruct (Z.pos (digits2_pos m) - 53 - 0) as [|k|k] eqn:Hk; [|lia|].
  - exists m, 0. rewrite binary_round_aux_exact by lia. split; [done|].
    cbn [SpecFloat.valid_binary]. unfold bounded, canonical_mantissa.
    apply andb_true_intro. split; [apply Z.eqb_eq|apply Z.leb_le].
    + unfold fexp, emin. change prec with 53. change emax with 1024. lia.
    + change prec with 53. change emax with 1024. lia.
  - assert (Z.pos (digits2_pos (Pos.iter xO m k)) = 53) as Hdigits
      by (rewrite digits2_pos_iter_xO; lia).
    exists (Pos.iter xO m k), (Z.pos (digits2_pos m) - 53).
    rewrite binary_round_aux_exact by lia. split; [done|].
    cbn [SpecFloat.valid_binary]. unfold bounded, canonical_mantissa.
    apply andb_true_intro. split; [apply Z.eqb_eq|apply Z.leb_le].
    + rewrite Hdigits. unfold fexp, emin. change prec with 53.
      change emax with 1024. lia.
    + change prec with 53. change emax with 1024. lia.
Qed.

(** Integers below 2^53 in magnitude convert to floats: [float] returns. *)
Lemma to_float_small (z : Z) :
  Z.abs z < 2 ^ 53 → to_float z = Ok (float_of_int z).
Proof.
  intros Hz. unfold to_float. cbv zeta.
  replace (is_infinity (float_of_int z)) with false; [done|].
  symmetry. unfold is_infinity. rewrite FloatAxioms.eqb_spec, abs_spec.
  replace (Prim2SF infinity) with (S754_infinity false) by (by vm_compute).
  unfold float_of_int, binary_normalize.
  destruct z as [|m|m].
  - by vm_compute.
  - destruct (binary_round_small false m) as (m' & e' & -> & Hvalid); [lia|].
    by rewrite (Prim2SF_SF2Prim _ Hvalid).
  - destruct (binary_round_small true m) as (m' & e' & -> & Hvalid); [lia|].
    by rewrite (Prim2SF_SF2Prim _ Hvalid).
Qed.

Lemma truediv_small (a : float) (b : Z) :
  b ≠ 0 → Z.abs b < 2 ^ 53 → truediv a b = Ok (a / float_of_int b)%float.
Proof.
  intros Hb Hsmall. unfold truediv.
  rewrite bool_decide_eq_false_2 by done. by rewrite to_float_small.
Qed.

End FloatOfInt.

(** ** The drawing of a region *)

Section Rendering.

Context {C : Type}.
Variables (cur : Db) (getcolor : gmap Z C).
Variables (centergenename : string) (label : bool).

Lemma add_feature_colored (center : option (Z * Z * Z))
    (gd_feature_set : list (Arrow C)) (f : SeqFeature) :
  colored getcolor f = true →
  ∃ arrow,
    add_feature getcolor centergenename label (center, gd_feature_set) f
    = Ok (center_after centergenename center [f], gd_feature_set ++ [arrow]) ∧
    arrow_for getcolor centergenename label f arrow.
Proof.
  unfold colored, add_feature, getitem, center_after, arrow_for.
  cbn [foldl].
  destruct (SeqFeature.qualifiers f !! "cluster_id") as [cluster_id|];
    [|done].
  intros [color Hcolor]%bool_decide_eq_true.
  case_bool_decide; cbn [mbind result_bind]; rewrite Hcolor;
    cbn [mbind result_bind];
    (eexists; split; [done|]; exists cluster_id; cbn;
     by rewrite ?bool_decide_eq_true_2, ?bool_decide_eq_false_2 by done).
Qed.

Lemma add_feature_uncolored (center : option (Z * Z * Z))
    (gd_feature_set : list (Arrow C)) (f : SeqFeature) :
  colored getcolor f = false →
  add_feature getcolor centergenename label (center, gd_feature_set) f
  = Raise KeyError.
Proof.
  unfold colored, add_feature, getitem.
  destruct (SeqFeature.qualifiers f !! "cluster_id") as [cluster_id|].
  - intros Hnone%bool_decide_eq_false.
    assert (getcolor !! cluster_id = None) as Hcolor
      by (by apply eq_None_not_Some).
    case_bool_decide; cbn [mbind result_bind]; by rewrite Hcolor.
  - intros _. by case_bool_decide.
Qed.

Lemma add_features_colored (seqfeatures : list SeqFeature)
    (center : option (Z * Z * Z)) (gd_feature_set : list (Arrow C)) :
  forallb (colored getcolor) seqfeatures = true →
  ∃ added,
    for_ seqfeatures (center, gd_feature_set)
      (add_feature getcolor centergenename label)
    = Ok (center_after centergenename center seqfeatures,
          gd_feature_set ++ added) ∧
    Forall2 (arrow_for getcolor centergenename label) seqfeatures added.
Proof.
  revert center gd_feature_set.
  induction seqfeatures as [|f fs IH]; intros center acc Hcolored.
  { exists []. split; [by rewrite app_nil_r|constructor]. }
  cbn [forallb] in Hcolored. apply andb_prop in Hcolored as [Hf Hfs].
  destruct (add_feature_colored center acc f Hf) as (arrow & Hstep & Harrow).
  destruct (IH (center_after centergenename center [f]) (acc ++ [arrow]) Hfs)
    as (added & Hloop & Hadded).
  exists (arrow :: added). split; [|by constructor].
  cbn [for_]. rewrite Hstep. cbn [mbind result_bind]. rewrite Hloop.
  by rewrite <- app_assoc.
Qed.

Lemma add_features_uncolored (seqfeatures : list SeqFeature)
    (center : option (Z * Z * Z)) (gd_feature_set : list (Arrow C)) :
  forallb (colored getcolor) seqfeatures = false →
  for_ seqfeatures (center, gd_feature_set)
    (add_feature getcolor centergenename label)
  = Raise KeyError.
Proof.
  revert center gd_feature_set.
  induction seqfeatures as [|f fs IH]; intros center acc Hcolored; [done|].
  cbn [forallb] in Hcolored. cbn [for_].
  destruct (colored getcolor f) eqn:Hf.
  - destruct (add_feature_colored center acc f Hf) as (arrow & -> & _).
    cbn [mbind result_bind]. by apply IH.
  - by rewrite add_feature_uncolored.
Qed.

Lemma center_after_last (before after : list SeqFeature) (f : SeqFeature)
    (center : option (Z * Z * Z)) :
  SeqFeature.id f = centergenename →
  (∀ f', f' ∈ after → SeqFeature.id f' ≠ centergenename) →
  center_after centergenename center (before ++ f :: after)
  = Some (loc_start (SeqFeature.location f),
          loc_end (SeqFeature.location f), SeqFeature.strand f).
Proof.
  intros Hid Hafter. unfold center_after. rewrite foldl_app. cbn [foldl].
  rewrite (bool_decide_eq_true_2 _ Hid).
  induction after as [|f' after IH]; [done|].
  cbn [foldl]. rewrite bool_decide_eq_false_2 by (apply Hafter; left).
  apply IH. intros f'' Hf''. apply Hafter. by right.
Qed.

(** The loop of [make_region_drawing] over coloured features, the last one
    with the center id being [center]. *)
Lemma render_loop (before after : list SeqFeature) (center : SeqFeature)
    (maxwidth : Z) :
  SeqFeature.id center = centergenename →
  (∀ f, f ∈ after → SeqFeature.id f ≠ centergenename) →
  forallb (colored getcolor) (before ++ center :: after) = true →
  ∃ added,
    Forall2 (arrow_for getcolor centergenename label)
      (before ++ center :: after) added ∧
    make_region_drawing cur (before ++ center :: after) getcolor
      centergenename maxwidth label
    = (lay ← region_layout (before ++ center :: after)
               (Some (loc_start (SeqFeature.location center),
                      loc_end (SeqFeature.location center),
                      SeqFeature.strand center)) maxwidth;
       Ok (Build_Drawing added lay
             ("/tmp/" +:+ sanitizeString cur centergenename false +:+ ".png")
             (bool_decide (SeqFeature.strand center = -1)))).
Proof.
  intros Hid Hafter Hcolored.
  destruct (add_features_colored _ None [] Hcolored)
    as (added & Hloop & Hadded).
  rewrite (center_after_last before after center None Hid Hafter) in Hloop.
  exists added. split; [done|].
  unfold make_region_drawing. rewrite Hloop. cbn [mbind result_bind app].
  by destruct (region_layout _ _ _).
Qed.

(** The centering arithmetic on coordinates that convert to floats. *)
Lemma region_layout_bounded (seqfeatures : list SeqFeature)
    (centerdstart centerend centerdstrand start end_ maxwidth : Z) :
  regionlength seqfeatures = Ok (start, end_) →
  end_ ≤ centerdstart ≤ start → end_ ≤ centerend ≤ start →
  Z.abs start ≤ 2 ^ 50 → Z.abs end_ ≤ 2 ^ 50 → Z.abs maxwidth ≤ 2 ^ 50 →
  let pagew_px := maxwidth `div` 20 in
  let midcentergene :=
    Z.abs (centerend - centerdstart) `div` 2 + Z.min centerdstart centerend in
  let roffset :=
    float_of_int (pagew_px `div` 2 - (start - midcentergene) `div` 20) in
  let loffset :=
    float_of_int (pagew_px `div` 2 - (midcentergene - end_) `div` 20) in
  end_ ≤ midcentergene ≤ start ∧
  region_layout seqfeatures (Some (centerdstart, centerend, centerdstrand))
    maxwidth
  = if bool_decide (pagew_px = 0) then Raise ZeroDivisionError
    else Ok (Build_Layout start end_ pagew_px midcentergene
               (start - midcentergene) (midcentergene - end_)
               roffset loffset
               (loffset / float_of_int pagew_px)
               (roffset / float_of_int pagew_px)).
Proof.
  intros Hextent Hcs Hce Hstart Hend Hwidth pagew mid roff loff.
  assert (2 ^ 50 = 1125899906842624) as E50 by done.
  assert (2 ^ 53 = 9007199254740992) as E53 by done.
  rewrite E50 in *.
  assert (end_ ≤ mid ≤ start) as Hmid
    by (unfold mid; Z.div_mod_to_equations; lia).
  split; [done|].
  unfold region_layout. rewrite Hextent.
  cbn [mbind result_bind local]. fold mid. unfold scale. fold pagew.
  replace (Z.abs (mid - start)) with (start - mid) by lia.
  replace (Z.abs (mid - end_)) with (mid - end_) by lia.
  rewrite !to_float_small
    by (rewrite E53; unfold pagew; Z.div_mod_to_equations; lia).
  cbn [mbind result_bind]. fold roff loff.
  case_bool_decide as Hpage.
  - unfold truediv. by rewrite bool_decide_eq_true_2.
  - rewrite !truediv_small
      by (rewrite ?E53; unfold pagew in *; Z.div_mod_to_equations; lia).
    done.
Qed.

(** X8. When every feature has a colour, the list holds a feature with the
    center id, and the page is at least one unit wide ([maxwidth] is 20 or
    more), the function returns: one arrow per feature, in the order of the
    list, each in the colour of its cluster and bordered red exactly when it
    carries the center id; the image under /tmp named after the sanitized
    center id; the extent of the list as start and end of the diagram; the
    page [maxwidth / 20] units wide by floor division; the midpoint of the
    last feature with the center id, which lies within the extent, so that
    the absolute values of the two spans are the differences themselves; the
    offsets by floor division; and the image is rotated exactly when the
    strand of that feature is -1. Coordinates and width are taken below 2^50
    in magnitude, where [float] does not overflow; the calls into the
    drawing library are taken to return. *)
Theorem render_returns (before after : list SeqFeature) (center : SeqFeature)
    (maxwidth : Z) :
  let seqfeatures := before ++ center :: after in
  let centerdstart := loc_start (SeqFeature.location center) in
  let centerend := loc_end (SeqFeature.location center) in
  SeqFeature.id center = centergenename →
  (∀ f, f ∈ after → SeqFeature.id f ≠ centergenename) →
  forallb (colored getcolor) seqfeatures = true →
  (∀ f x, f ∈ seqfeatures → x ∈ coords f → Z.abs x ≤ 2 ^ 50) →
  20 ≤ maxwidth ≤ 2 ^ 50 →
  ∃ drawing start end_,
    make_region_drawing cur seqfeatures getcolor centergenename maxwidth label
    = Ok drawing ∧
    regionlength seqfeatures = Ok (start, end_) ∧
    Forall2 (arrow_for getcolor centergenename label) seqfeatures
      (arrows drawing) ∧
    imgfileloc drawing
    = "/tmp/" +:+ sanitizeString cur centergenename false +:+ ".png" ∧
    rotated drawing = bool_decide (SeqFeature.strand center = -1) ∧
    lay_start (layout drawing) = start ∧
    lay_end (layout drawing) = end_ ∧
    pagew_px (layout drawing) = maxwidth `div` 20 ∧
    midcentergene (layout drawing)
    = Z.abs (centerend - centerdstart) `div` 2
      + Z.min centerdstart centerend ∧
    end_ ≤ midcentergene (layout drawing) ≤ start ∧
    l2mid (layout drawing) = start - midcentergene (layout drawing) ∧
    r2mid (layout drawing) = midcentergene (layout drawing) - end_ ∧
    roffset (layout drawing)
    = float_of_int ((maxwidth `div` 20) `div` 2
                    - l2mid (layout drawing) `div` 20) ∧
    loffset (layout drawing)
    = float_of_int ((maxwidth `div` 20) `div` 2
                    - r2mid (layout drawing) `div` 20) ∧
    xl (layout drawing)
    = (loffset (layout drawing) / float_of_int (maxwidth `div` 20))%float ∧
    xr (layout drawing)
    = (roffset (layout drawing) / float_of_int (maxwidth `div` 20))%float.
Proof.
  intros seqfeatures cs ce Hid Hafter Hcolored Hcoords Hpage.
  assert (Z.abs maxwidth ≤ 2 ^ 50) as Hwidth by lia.
  assert (seqfeatures ≠ []) as Hne by (by destruct before).
  destruct (regionlength_nonempty seqfeatures Hne)
    as (start & end_ & Hextent & Hbounds & (fs & Hfs & Hs) & (fe & Hfe & He)
        & _).
  assert (center ∈ seqfeatures) as Hcenter
    by (apply elem_of_app; right; left).
  assert (end_ ≤ cs ≤ start) as Hcs
    by (apply (Hbounds center); [done|unfold coords; left]).
  assert (end_ ≤ ce ≤ start) as Hce
    by (apply (Hbounds center); [done|unfold coords; right; left]).
  assert (Z.abs start ≤ 2 ^ 50) as Hstart by by apply (Hcoords fs).
  assert (Z.abs end_ ≤ 2 ^ 50) as Hend by by apply (Hcoords fe).
  destruct (render_loop before after center maxwidth Hid Hafter Hcolored)
    as (added & Hadded & Hdrawing).
  destruct (region_layout_bounded seqfeatures cs ce
              (SeqFeature.strand center) start end_ maxwidth
              Hextent Hcs Hce Hstart Hend Hwidth) as [Hmid Hlayout].
  assert (maxwidth `div` 20 ≠ 0) as Hwide
    by (clear -Hpage; Z.div_mod_to_equations; lia).
  rewrite (bool_decide_eq_false_2 _ Hwide) in Hlayout.
  fold seqfeatures cs ce in Hdrawing. rewrite Hlayout in Hdrawing.
  cbn [mbind result_bind] in Hdrawing.
  eexists _, start, end_. split; [exact Hdrawing|].
  cbn [arrows layout imgfileloc rotated lay_start lay_end pagew_px
       midcentergene l2mid r2mid roffset loffset xl xr].
  split_and!; (done || apply Hmid).
Qed.

(** X9. A page narrower than one unit: with [maxwidth] in 0..19 the page
    width [maxwidth / 20] is 0 by floor division, and the function raises
    ZeroDivisionError when it divides the offsets by it, although every
    feature has a colour and the center feature is there. *)
Theorem render_narrow_page (before after : list SeqFeature)
    (center : SeqFeature) (maxwidth : Z) :
  let seqfeatures := before ++ center :: after in
  SeqFeature.id center = centergenename →
  (∀ f, f ∈ after → SeqFeature.id f ≠ centergenename) →
  forallb (colored getcolor) seqfeatures = true →
  (∀ f x, f ∈ seqfeatures → x ∈ coords f → Z.abs x ≤ 2 ^ 50) →
  0 ≤ maxwidth < 20 →
  make_region_drawing cur seqfeatures getcolor centergenename maxwidth label
  = Raise ZeroDivisionError.
Proof.
  intros seqfeatures Hid Hafter Hcolored Hcoords Hpage.
  assert (seqfeatures ≠ []) as Hne by (by destruct before).
  destruct (regionlength_nonempty seqfeatures Hne)
    as (start & end_ & Hextent & Hbounds & (fs & Hfs & Hs) & (fe & Hfe & He)
        & _).
  assert (center ∈ seqfeatures) as Hcenter
    by (apply elem_of_app; right; left).
  destruct (render_loop before after center maxwidth Hid Hafter Hcolored)
    as (added & _ & Hdrawing).
  fold seqfeatures in Hdrawing. rewrite Hdrawing.
  destruct (region_layout_bounded seqfeatures
              (loc_start (SeqFeature.location center))
              (loc_end (SeqFeature.location center))
              (SeqFeature.strand center) start end_ maxwidth)
    as [_ Hlayout]; try done.
  - apply (Hbounds center); [done|unfold coords; left].
  - apply (Hbounds center); [done|unfold coords; right; left].
  - by apply (Hcoords fs).
  - by apply (Hcoords fe).
  - assert (2 ^ 50 = 1125899906842624) as -> by done. lia.
  - rewrite Hlayout.
    assert (maxwidth `div` 20 = 0) as Hzero
      by (clear -Hpage; Z.div_mod_to_equations; lia).
    by rewrite (bool_decide_eq_true_2 _ Hzero).
Qed.

(** X10. A feature without a colour (no cluster_id qualifier, or a cluster
    id the colour map does not know) makes the function raise KeyError,
    whether or not the list holds the center feature and whatever the width:
    the colours are looked up before the extent and the center are read. *)
Theorem render_uncolored (seqfeatures : list SeqFeature) (maxwidth : Z) :
  forallb (colored getcolor) seqfeatures = false →
  make_region_drawing cur seqfeatures getcolor centergenename maxwidth label
  = Raise KeyError.
Proof.
  intros Hcolored. unfold make_region_drawing.
  by rewrite add_features_uncolored.
Qed.

Lemma center_after_Some (center : Z * Z * Z) (seqfeatures : list SeqFeature) :
  is_Some (center_after centergenename (Some center) seqfeatures).
Proof.
  revert center. induction seqfeatures as [|f fs IH]; intros center;
    [by eexists|].
  unfold center_after in *. cbn [foldl]. case_bool_decide; apply IH.
Qed.

Lemma center_after_None (seqfeatures : list SeqFeature) :
  center_after centergenename None seqfeatures = None →
  ∀ f, f ∈ seqfeatures → SeqFeature.id f ≠ centergenename.
Proof.
  induction seqfeatures as [|f fs IH]; intros Hnone f' Hf';
    [by apply elem_of_nil in Hf'|].
  unfold center_after in Hnone. cbn [foldl] in Hnone.
  case_bool_decide as Hid.
  - destruct (center_after_Some
                (loc_start (SeqFeature.location f),
                 loc_end (SeqFeature.location f), SeqFeature.strand f) fs)
      as [center Hcenter].
    unfold center_after in Hcenter. congruence.
  - apply elem_of_cons in Hf' as [->|Hf']; [done|]. by apply IH.
Qed.

Lemma bind_raises {A B} (m : result A) (k : A → result B) (e : exn) :
  m ≫= k = Raise e → m = Raise e ∨ ∃ a, m = Ok a ∧ k a = Raise e.
Proof.
  destruct m as [a|e']; cbn [mbind result_bind]; intros H;
    [right; exists a; by split|left; congruence].
Qed.

Lemma to_float_raises (z : Z) (e : exn) :
  to_float z = Raise e → e = OverflowError.
Proof. unfold to_float. cbv zeta. destruct (is_infinity _); congruence. Qed.

Lemma truediv_raises (a : float) (b : Z) (e : exn) :
  truediv a b = Raise e →
  e = OverflowError ∨ (e = ZeroDivisionError ∧ b = 0).
Proof.
  unfold truediv. case_bool_decide as Hb; [intros [= <-]; by right|].
  intros [H|(b' & _ & H)]%bind_raises; [|done].
  left. by apply to_float_raises in H.
Qed.

(** The errors of the centering arithmetic, each with its cause. *)
Lemma region_layout_raises (seqfeatures : list SeqFeature)
    (center : option (Z * Z * Z)) (maxwidth : Z) (e : exn) :
  region_layout seqfeatures center maxwidth = Raise e →
  (e = ValueError ∧ seqfeatures = []) ∨
  (e = UnboundLocalError ∧ seqfeatures ≠ [] ∧ center = None) ∨
  e = OverflowError ∨
  (e = ZeroDivisionError ∧ maxwidth `div` 20 = 0).
Proof.
  unfold region_layout, scale. intros H.
  apply bind_raises in H as [H|([start end_] & Hextent & H)].
  { destruct (regionlength_outcome seqfeatures)
      as [[-> Hraise]|[_ [extent Hreturn]]]; [|congruence].
    left. split; congruence. }
  assert (seqfeatures ≠ []) as Hne by (by intros ->).
  cbv zeta in H.
  apply bind_raises in H
    as [H|([[centerdstart centerend] centerdstrand] & Hcenter & H)].
  { destruct center; [done|]. injection H as <-. right. by left. }
  apply bind_raises in H as [H|(roffset & _ & H)];
    [apply to_float_raises in H; auto|].
  apply bind_raises in H as [H|(loffset & _ & H)];
    [apply to_float_raises in H; auto|].
  apply bind_raises in H as [H|(xl & _ & H)];
    [apply truediv_raises in H as [->|[-> ?]]; auto|].
  apply bind_raises in H as [H|(xr & _ & H)];
    [apply truediv_raises in H as [->|[-> ?]]; auto|].
  done.
Qed.

(** X11. Whenever the function raises, the error and its cause are one of
    these: KeyError, and some feature has no colour; ValueError, and the
    list is empty; UnboundLocalError, and no feature of the (non-empty) list
    carries the center id; ZeroDivisionError, and [maxwidth] is in 0..19; or
    OverflowError, from [float] of an integer beyond the floats. It raises
    nothing else. *)
Theorem render_errors (seqfeatures : list SeqFeature) (maxwidth : Z)
    (e : exn) :
  make_region_drawing cur seqfeatures getcolor centergenename maxwidth label
  = Raise e →
  (e = KeyError ∧ forallb (colored getcolor) seqfeatures = false) ∨
  (e = ValueError ∧ seqfeatures = []) ∨
  (e = UnboundLocalError ∧ seqfeatures ≠ [] ∧
   ∀ f, f ∈ seqfeatures → SeqFeature.id f ≠ centergenename) ∨
  e = OverflowError ∨
  (e = ZeroDivisionError ∧ 0 ≤ maxwidth < 20).
Proof.
  destruct (forallb (colored getcolor) seqfeatures) eqn:Hcolored.
  - unfold make_region_drawing.
    destruct (add_features_colored seqfeatures None [] Hcolored)
      as (added & -> & _).
    cbn [mbind result_bind].
    destruct (region_layout _ _ _) as [lay|e'] eqn:Hlayout.
    + cbn [mbind result_bind].
      destruct (center_after centergenename None seqfeatures)
        as [[[centerdstart centerend] centerdstrand]|] eqn:Hcenter; [done|].
      cbn [local mbind result_bind]. intros [= <-]. right. right. left.
      split; [done|].
      split; [|by apply center_after_None].
      intros ->. by vm_compute in Hlayout.
    + cbn [mbind result_bind]. intros [= <-].
      destruct (region_layout_raises _ _ _ _ Hlayout)
        as [Hempty|[(-> & Hne & Hnone)|[->|[-> Hpage]]]].
      * right. by left.
      * right. right. left. split; [done|].
        split; [done|by apply center_after_None].
      * right. right. right. by left.
      * right. right. right. right. split; [done|].
        clear -Hpage. Z.div_mod_to_equations. lia.
  - unfold make_region_drawing. rewrite add_features_uncolored by done.
    intros [= <-]. by left.
Qed.

End Rendering.

Lemma render_returns_witness :
  ∃ drawing,
    make_region_drawing Operon.db Operon.features Operon.getcolor Operon.thrA
      4000 true
    = Ok drawing ∧
    rotated drawing = false ∧
    lay_start (layout drawing) = 3733 ∧ lay_end (layout drawing) = 190 ∧
    pagew_px (layout drawing) = 200 ∧ midcentergene (layout drawing) = 1568 ∧
    l2mid (layout drawing) = 2165 ∧ r2mid (layout drawing) = 1378.
Proof.
  destruct (render_returns Operon.db Operon.getcolor Operon.thrA true
              [SeqFeature.mk (Build_FeatureLocation 190 255) 1 Operon.thrL
                 {[ "cluster_id" := 12 ]}]
              [SeqFeature.mk (Build_FeatureLocation 3733 2801) (-1) Operon.thrB
                 {[ "cluster_id" := 3 ]}]
              (SeqFeature.mk (Build_FeatureLocation 337 2799) 1 Operon.thrA
                 {[ "cluster_id" := 7 ]}) 4000)
    as (drawing & start & end_ & Hdrawing & Hextent & _ & _ & Hrot & Hs & He
        & Hpage & Hmid & _ & Hl & Hr & _).
  - reflexivity.
  - intros f Hf. apply list_elem_of_singleton in Hf. rewrite Hf. discriminate.
  - reflexivity.
  - intros f x Hf Hx.
    assert (0 ≤ x ≤ 3733); [|lia].
    repeat (apply elem_of_cons in Hf as [Hf|Hf];
            [rewrite Hf in Hx; unfold coords in Hx; cbn in Hx;
             repeat (apply elem_of_cons in Hx as [Hx|Hx]; [lia|]);
             by apply elem_of_nil in Hx|]).
    by apply elem_of_nil in Hf.
  - lia.
  - injection Hextent as Hstart Hend.
    exists drawing. rewrite Hl, Hr, Hmid, Hs, He, Hpage, Hrot.
    rewrite <- Hstart, <- Hend.
    split; [exact Hdrawing|]. repeat split.
Defined.

Lemma render_narrow_page_witness :
  make_region_drawing Operon.db Operon.features Operon.getcolor Operon.thrA
    19 false
  = Raise ZeroDivisionError.
Proof.
  apply (render_narrow_page Operon.db Operon.getcolor Operon.thrA false
           [SeqFeature.mk (Build_FeatureLocation 190 255) 1 Operon.thrL
              {[ "cluster_id" := 12 ]}]
           [SeqFeature.mk (Build_FeatureLocation 3733 2801) (-1) Operon.thrB
              {[ "cluster_id" := 3 ]}]
           (SeqFeature.mk (Build_FeatureLocation 337 2799) 1 Operon.thrA
              {[ "cluster_id" := 7 ]}) 19).
  - reflexivity.
  - intros f Hf. apply list_elem_of_singleton in Hf. rewrite Hf. discriminate.
  - reflexivity.
  - intros f x Hf Hx.
    assert (0 ≤ x ≤ 3733); [|lia].
    repeat (apply elem_of_cons in Hf as [Hf|Hf];
            [rewrite Hf in Hx; unfold coords in Hx; cbn in Hx;
             repeat (apply elem_of_cons in Hx as [Hx|Hx]; [lia|]);
             by apply elem_of_nil in Hx|]).
    by apply elem_of_nil in Hf.
  - lia.
Defined.

Lemma render_uncolored_witness :
  make_region_drawing Operon.db Operon.features Sample.getcolor Operon.thrA
    4000 false
  = Raise KeyError.
Proof.
  apply (render_uncolored Operon.db Sample.getcolor Operon.thrA false
           Operon.features 4000).
  reflexivity.
Defined.

Lemma render_errors_witness :
  (ZeroDivisionError = KeyError ∧
   forallb (colored Operon.getcolor) Operon.features = false) ∨
  (ZeroDivisionError = ValueError ∧ Operon.features = []) ∨
  (ZeroDivisionError = UnboundLocalError ∧ Operon.features ≠ [] ∧
   ∀ f, f ∈ Operon.features → SeqFeature.id f ≠ Operon.thrA) ∨
  ZeroDivisionError = OverflowError ∨
  (ZeroDivisionError = ZeroDivisionError ∧ 0 ≤ 19 < 20).
Proof.
  apply (render_errors Operon.db Operon.getcolor Operon.thrA false
           Operon.features 19 ZeroDivisionError).
  reflexivity.
Defined.

(** ** The colours of a colour map *)

Section ColourGrid.

Lemma product_lookup {A B} (a : list A) (b : list B) (q r : nat)
    (x : A) (y : B) :
  a !! q = Some x → b !! r = Some y →
  product a b !! (q * length b + r)%nat = Some (x, y).
Proof.
  revert q. induction a as [|x0 a IH]; intros q Hq Hr; [done|].
  rewrite product_cons. destruct q as [|q].
  - injection Hq as ->.
    rewrite lookup_app_l
      by (rewrite length_fmap; cbn; by eapply lookup_lt_Some).
    cbn [Nat.mul Nat.add]. by rewrite list_lookup_fmap, Hr.
  - rewrite lookup_app_r by (rewrite length_fmap; lia).
    rewrite length_fmap.
    replace (S q * length b + r - length b)%nat
      with (q * length b + r)%nat by lia.
    by apply IH.
Qed.

Lemma product_lookup_div {A B} (a : list A) (b : list B) (i : nat)
    (x : A) (y : B) :
  a !! Nat.div i (length b) = Some x →
  b !! Nat.modulo i (length b) = Some y →
  product a b !! i = Some (x, y).
Proof.
  intros Hx Hy.
  rewrite (Nat.div_mod_eq i (length b)) at 1. rewrite Nat.mul_comm.
  by apply product_lookup.
Qed.

(** The pair at a position of the grid: the hue is the quotient of the
    position by the grid size, the saturation the remainder. *)
Lemma grid_lookup (perm : Z) (i : nat) :
  0 < perm → Z.of_nat i < perm * perm →
  grid perm !! i
  = Some ((float_of_int (Z.of_nat i `div` perm) * 1 / float_of_int perm)%float,
          (float_of_int (Z.of_nat i `mod` perm) * 1 / float_of_int perm
           + 0.2)%float).
Proof.
  intros Hperm Hi. unfold grid, range. apply product_lookup_div.
  - rewrite length_fmap, length_seqZ, list_lookup_fmap.
    assert (Z.of_nat (Nat.div i (Z.to_nat perm)) = Z.of_nat i `div` perm)
      as Hq by (rewrite Nat2Z.inj_div, Z2Nat.id; lia).
    rewrite lookup_seqZ_lt
      by (rewrite Hq; apply Z.div_lt_upper_bound; lia).
    cbn [fmap option_fmap option_map]. by rewrite Z.add_0_l, Hq.
  - rewrite length_fmap, length_seqZ, list_lookup_fmap.
    assert (Z.of_nat (Nat.modulo i (Z.to_nat perm)) = Z.of_nat i `mod` perm)
      as Hr by (rewrite Nat2Z.inj_mod, Z2Nat.id; lia).
    rewrite lookup_seqZ_lt by (rewrite Hr; apply Z.mod_pos_bound; lia).
    cbn [fmap option_fmap option_map]. by rewrite Z.add_0_l, Hr.
Qed.

(** The colour at a position of the colours generated. *)
Lemma generate_RGB_lookup (perm : Z) (full : list RGB) (i : nat) (c : RGB) :
  0 < perm → generate_RGB perm (perm * perm) = Ok full → full !! i = Some c →
  hsv_to_rgb (float_of_int (Z.of_nat i `div` perm) * 1 / float_of_int perm)
    (float_of_int (Z.of_nat i `mod` perm) * 1 / float_of_int perm + 0.2) 0.7
  = Ok c.
Proof.
  intros Hperm Hgen Hc. rewrite generate_RGB_grid in Hgen.
  destruct (grid perm) as [|hs0 HS] eqn:Egrid; [done|].
  rewrite <- Egrid in Hgen. apply mapM_Ok_Forall2 in Hgen.
  destruct (Forall2_lookup_r _ _ _ _ _ Hgen Hc) as (hs & Hhs & Hcolor).
  apply lookup_take_Some in Hhs as [Hhs Hlt].
  rewrite grid_lookup in Hhs by lia. by injection Hhs as <-.
Qed.

(** The grid sizes for 1 to 10000 values are the least ones, by
    evaluation. *)
Lemma grid_size_least_table :
  all_from grid_size_least (Z.to_nat 10000) 1 = true.
Proof. vm_cast_no_check (eq_refl true). Qed.

(** The first colour of the grids of size 1 to 100, by evaluation. *)
Lemma grid_starts_table : all_from grid_starts (Z.to_nat 100) 1 = true.
Proof. vm_cast_no_check (eq_refl true). Qed.

(** The grids of size 1 to 5 stay within the gamut, by evaluation. *)
Lemma grid_in_gamut_table : all_from grid_in_gamut (Z.to_nat 5) 1 = true.
Proof. vm_cast_no_check (eq_refl true). Qed.

(** The grids of size 6 to 100 leave the gamut, by evaluation. *)
Lemma grid_leaves_gamut_table :
  all_from grid_leaves_gamut (Z.to_nat 95) 6 = true.
Proof. vm_cast_no_check (eq_refl true). Qed.

Lemma grid_size_exact (N : Z) :
  1 ≤ N ≤ 10000 →
  ∃ perm, grid_size N = Ok perm ∧ 1 ≤ perm ≤ 100 ∧
          (perm - 1) * (perm - 1) < N ≤ perm * perm.
Proof.
  intros HN. destruct (grid_size_small N HN) as (perm & Hsize & Hperm & _).
  pose proof (all_from_spec _ _ _ N grid_size_least_table) as Hleast.
  unfold grid_size_least in Hleast. rewrite Hsize in Hleast.
  exists perm. split_and!; [done|lia|lia|..];
    apply bool_decide_eq_true in Hleast; lia.
Qed.

Lemma grid_rows_full (perm : Z) :
  1 ≤ perm ≤ 100 →
  ∃ full, grid_rows perm = Ok full ∧
          length full = Z.to_nat (perm * perm) ∧
          generate_RGB perm (perm * perm) = Ok full.
Proof.
  intros Hperm.
  pose proof (all_from_spec _ _ _ perm grid_table) as Hasc.
  unfold grid_ascending in Hasc.
  assert (1 ≤ perm < 1 + Z.of_nat (Z.to_nat 100)) as Hrange by lia.
  destruct (grid_rows perm) as [cs|] eqn:Ecs;
    [|by discriminate (Hasc Hrange)].
  specialize (Hasc Hrange).
  apply andb_prop in Hasc as [Hlen%bool_decide_eq_true _].
  exists cs. split_and!; [done..|].
  apply grid_rows_generate_RGB; [done..|lia].
Qed.

(** What [colormap] returns for at most 10000 distinct values: the sorted
    distinct values zipped with the colours of the least grid that holds
    them. *)
Lemma colormap_grid (valuelist : list Z) :
  valuelist ≠ [] → Z.of_nat (length (numpy_unique valuelist)) ≤ 10000 →
  ∃ perm full,
    1 ≤ perm ≤ 100 ∧
    (perm - 1) * (perm - 1) < Z.of_nat (length (numpy_unique valuelist))
    ∧ Z.of_nat (length (numpy_unique valuelist)) ≤ perm * perm ∧
    grid_rows perm = Ok full ∧
    length full = Z.to_nat (perm * perm) ∧
    generate_RGB perm (perm * perm) = Ok full ∧
    colormap valuelist = Ok (dict (zip (numpy_unique valuelist) full)).
Proof.
  intros Hne Hsmall. set (values := numpy_unique valuelist) in *.
  assert (values ≠ []) as Hvalues
    by (intros Hnil; by apply (proj1 (numpy_unique_nil _)) in Hnil).
  assert (1 ≤ Z.of_nat (length values) ≤ 10000) as HN
    by (destruct values; [done|cbn [length] in *; lia]).
  destruct (grid_size_exact _ HN) as (perm & Hsize & Hperm & Hleast & Hfit).
  destruct (grid_rows_full perm Hperm) as (full & Hrows & Hlen & Hfull).
  pose proof (generate_RGB_prefix _ _ _ _ Hfull Hfit) as Hgen.
  rewrite Nat2Z.id in Hgen.
  exists perm, full. split_and!; [lia..|done|done|done|].
  unfold colormap. fold values. unfold grid_size in Hsize.
  destruct (math_sqrt _) as [root|]; [|done].
  cbn [mbind result_bind] in Hsize |- *. rewrite Hsize.
  cbn [mbind result_bind]. rewrite Hgen. cbn [mbind result_bind].
  by rewrite Nat2Z.id, take_take, Nat.min_id, zip_with_take_r.
Qed.

(** The colour of the value of rank [i]. *)
Lemma colormap_rank (values : list Z) (full : list RGB) (i : nat) (k : Z) :
  NoDup values → (length values ≤ length full)%nat →
  values !! i = Some k →
  ∃ c, full !! i = Some c ∧ dict (zip values full) !! k = Some c.
Proof.
  intros Hnodup Hlen Hk.
  destruct (lookup_lt_is_Some_2 full i) as [c Hc];
    [apply lookup_lt_Some in Hk; lia|].
  exists c. split; [done|].
  apply dict_lookup; [by rewrite fst_zip|].
  apply list_elem_of_lookup. exists i.
  by apply lookup_zip_with_Some; exists k, c.
Qed.

(** Every colour of the map is a colour of the grid. *)
Lemma colormap_color (values : list Z) (full : list RGB) (k : Z) (c : RGB) :
  NoDup values → (length values ≤ length full)%nat →
  dict (zip values full) !! k = Some c → c ∈ full.
Proof.
  intros Hnodup Hlen Hc.
  apply dict_lookup in Hc; [|by rewrite fst_zip].
  by apply elem_of_zip_r in Hc.
Qed.

(** X12. For ids within int64, at most 10000 of them distinct, the id of
    rank [i] among the sorted distinct ids (from 0) gets the colour of hue
    (i div perm) / perm,
    saturation (i mod perm) / perm + 0.2 and value 0.7, where [perm] is the
    least integer whose square is at least the number of distinct ids: the
    ids run through the saturations of one hue before the next hue starts. *)
Theorem colormap_hue_saturation (valuelist : list Z) (i : nat) (k : Z) :
  Forall int64 valuelist →
  Z.of_nat (length (numpy_unique valuelist)) ≤ 10000 →
  numpy_unique valuelist !! i = Some k →
  ∃ perm colorlookup c,
    (perm - 1) * (perm - 1) < Z.of_nat (length (numpy_unique valuelist))
    ∧ Z.of_nat (length (numpy_unique valuelist)) ≤ perm * perm ∧
    colormap valuelist = Ok colorlookup ∧
    colorlookup !! k = Some c ∧
    hsv_to_rgb (float_of_int (Z.of_nat i `div` perm) * 1 / float_of_int perm)
      (float_of_int (Z.of_nat i `mod` perm) * 1 / float_of_int perm + 0.2)
      0.7
    = Ok c.
Proof.
  intros _ Hsmall Hk.
  assert (valuelist ≠ []) as Hne by (by intros ->).
  destruct (colormap_grid valuelist Hne Hsmall)
    as (perm & full & Hperm & Hleast & Hfit & _ & Hlen & Hfull & Hmap).
  destruct (colormap_rank (numpy_unique valuelist) full i k)
    as (c & Hc & Hlookup); [apply numpy_unique_NoDup|lia|done|].
  exists perm, (dict (zip (numpy_unique valuelist) full)), c.
  split_and!; [done..|].
  apply (generate_RGB_lookup perm full); [lia|done..].
Qed.

Lemma numpy_unique_head (valuelist : list Z) (k : Z) :
  k ∈ valuelist → (∀ k', k' ∈ valuelist → k ≤ k') →
  numpy_unique valuelist !! 0%nat = Some k.
Proof.
  intros Hk Hmin. pose proof (numpy_unique_sorted valuelist) as Hsorted.
  assert (∀ x, x ∈ numpy_unique valuelist → x ∈ valuelist) as Helem
    by (intros x; apply numpy_unique_elem).
  apply (proj2 (numpy_unique_elem valuelist k)) in Hk.
  destruct (numpy_unique valuelist) as [|v0 rest]; [by apply elem_of_nil in Hk|].
  apply StronglySorted_inv in Hsorted as [_ Hlt].
  rewrite Forall_forall in Hlt.
  assert (k ≤ v0) by (apply Hmin, Helem; left).
  apply elem_of_cons in Hk as [->|Hk]; [done|].
  specialize (Hlt k Hk). lia.
Qed.

Lemma same_color_eq (c1 c2 : RGB) : same_color c1 c2 = true → c1 = c2.
Proof.
  destruct c1 as [[r1 g1] b1], c2 as [[r2 g2] b2]. cbn [same_color].
  intros [[Hr Hg]%andb_prop Hb]%andb_prop.
  apply FloatAxioms.Leibniz.eqb_spec in Hr, Hg, Hb. congruence.
Qed.

(** X13. For ids within int64, at most 10000 of them distinct, the smallest
    id of the list always gets the same colour, whatever the other ids are and however many: hue
    0, saturation 0.2, value 0.7, which [RGB_to_hex] writes "#b28e8e". *)
Theorem colormap_smallest_id (valuelist : list Z) (k : Z) :
  Forall int64 valuelist →
  Z.of_nat (length (numpy_unique valuelist)) ≤ 10000 →
  k ∈ valuelist → (∀ k', k' ∈ valuelist → k ≤ k') →
  ∃ colorlookup,
    colormap valuelist = Ok colorlookup ∧
    colorlookup !! k = Some first_color ∧
    RGB_to_hex [first_color] = Ok ["#b28e8e"].
Proof.
  intros _ Hsmall Hk Hmin.
  assert (valuelist ≠ []) as Hne
    by (intros ->; by apply elem_of_nil in Hk).
  destruct (colormap_grid valuelist Hne Hsmall)
    as (perm & full & Hperm & Hleast & Hfit & Hrows & Hlen & Hfull & Hmap).
  destruct (colormap_rank (numpy_unique valuelist) full 0 k)
    as (c & Hc & Hlookup);
    [apply numpy_unique_NoDup|lia|by apply numpy_unique_head|].
  pose proof (all_from_spec _ _ _ perm grid_starts_table) as Hstarts.
  unfold grid_starts in Hstarts. rewrite Hrows in Hstarts.
  destruct full as [|c0 full]; [done|]. injection Hc as ->.
  apply same_color_eq in Hstarts; [|lia]. subst c.
  exists (dict (zip (numpy_unique valuelist) (first_color :: full))).
  split_and!; [done|done|by vm_compute].
Qed.

Lemma unit_RGBb_unit_RGB (c : RGB) : unit_RGBb c = true → unit_RGB c.
Proof.
  unfold unit_RGBb, unit_RGB, unit_intervalb, unit_interval.
  intros [[[? ?]%andb_prop [? ?]%andb_prop]%andb_prop [? ?]%andb_prop]%andb_prop.
  done.
Qed.

(** X14. With at most 25 distinct ids, every colour of the map has its three
    channels in [0, 1], so that [RGB_to_hex] turns it into a well-formed
    string: '#' and six hexadecimal digits. *)
Theorem colormap_in_gamut (valuelist : list Z) :
  valuelist ≠ [] →
  Z.of_nat (length (numpy_unique valuelist)) ≤ 25 →
  ∃ colorlookup,
    colormap valuelist = Ok colorlookup ∧
    ∀ k c, colorlookup !! k = Some c →
           unit_RGB c ∧
           ∃ color, RGB_to_hex [c] = Ok [color] ∧ hex_of c color.
Proof.
  intros Hne Hsmall.
  destruct (colormap_grid valuelist Hne)
    as (perm & full & Hperm & Hleast & Hfit & Hrows & Hlen & Hfull & Hmap);
    [lia|].
  assert (perm ≤ 5) as Hfive by nia.
  pose proof (all_from_spec _ _ _ perm grid_in_gamut_table) as Hgamut.
  unfold grid_in_gamut in Hgamut. rewrite Hrows in Hgamut.
  assert (forallb unit_RGBb full = true) as Hall by (apply Hgamut; lia).
  rewrite forallb_forall in Hall.
  eexists. split; [exact Hmap|]. intros k c Hc.
  apply colormap_color in Hc; [|apply numpy_unique_NoDup|lia].
  assert (unit_RGB c) as Hunit
    by (by apply unit_RGBb_unit_RGB, Hall, list_elem_of_In).
  split; [done|].
  destruct (RGB_to_hex_in_gamut [c]) as (colors & Hcolors & Hhex);
    [by constructor|].
  apply Forall2_cons_inv_l in Hhex as (color & rest & Hcolor & Hrest & ->).
  apply Forall2_nil_inv_l in Hrest as ->.
  by exists color.
Qed.

(** X15. With ids within int64, 26 to 10000 of them distinct, the grid has
    six or more saturations per hue, the last of them above 1: some id of the list gets a colour
    with a channel below zero, and the string [RGB_to_hex] makes of it has a
    minus sign in it (as "#b2-5-5"), which is no hexadecimal colour. *)
Theorem colormap_out_of_gamut (valuelist : list Z) :
  Forall int64 valuelist →
  26 ≤ Z.of_nat (length (numpy_unique valuelist)) ≤ 10000 →
  ∃ colorlookup k c r g b,
    colormap valuelist = Ok colorlookup ∧
    k ∈ valuelist ∧ colorlookup !! k = Some c ∧
    PrimFloat.ltb c.2 0 = true ∧
    to_int (c.2 * 255)%float = Ok b ∧ b < 0 ∧
    RGB_to_hex [c]
    = Ok ["#" +:+ format_02x r +:+ format_02x g +:+ "-" +:+ hex (- b)].
Proof.
  intros _ [Hmany Hsmall].
  assert (valuelist ≠ []) as Hne by (intros ->; cbn in Hmany; lia).
  destruct (colormap_grid valuelist Hne Hsmall)
    as (perm & full & Hperm & Hleast & Hfit & Hrows & Hlen & Hfull & Hmap).
  assert (6 ≤ perm) as Hsix by nia.
  assert (perm - 1 < Z.of_nat (length (numpy_unique valuelist))) as Hrank
    by nia.
  destruct (lookup_lt_is_Some_2 (numpy_unique valuelist)
              (Z.to_nat (perm - 1))) as [k Hk]; [lia|].
  destruct (colormap_rank (numpy_unique valuelist) full
              (Z.to_nat (perm - 1)) k)
    as (c & Hc & Hlookup); [apply numpy_unique_NoDup|lia|done|].
  pose proof (all_from_spec _ _ _ perm grid_leaves_gamut_table) as Hleaves.
  unfold grid_leaves_gamut in Hleaves. rewrite Hrows, Hc in Hleaves.
  assert (below_gamut c = true) as Hbelow by (apply Hleaves; lia).
  unfold below_gamut in Hbelow. apply andb_prop in Hbelow as [Hneg Hscaled].
  destruct c as [[cr cg] cb]. cbn [fst snd] in *.
  destruct (to_int (cr * 255)) as [r|] eqn:Er; [|done].
  destruct (to_int (cg * 255)) as [g|] eqn:Eg; [|done].
  destruct (to_int (cb * 255)) as [b|] eqn:Eb; [|done].
  apply bool_decide_eq_true in Hscaled.
  exists (dict (zip (numpy_unique valuelist) full)), k, (cr, cg, cb), r, g, b.
  split_and!; [done| |done|done|done|done|].
  - apply list_elem_of_lookup_2 in Hk.
    by apply (proj1 (numpy_unique_elem _ _)) in Hk.
  - unfold RGB_to_hex. cbn [mapM]. rewrite Er, Eg, Eb.
    cbn [mbind result_bind mret result_ret fmap list_fmap].
    unfold format_02x at 3. by rewrite bool_decide_eq_true_2.
Qed.

(** The grids of size 1 to 5 have strings that all differ, by
    evaluation. *)
Lemma grid_hex_distinct_table :
  all_from grid_hex_distinct (Z.to_nat 5) 1 = true.
Proof. vm_cast_no_check (eq_refl true). Qed.

(** The string at a position is the string of the colour there. *)
Lemma RGB_to_hex_lookup (RGBlist : list RGB) (colors : list string)
    (i : nat) (c : RGB) :
  RGB_to_hex RGBlist = Ok colors → RGBlist !! i = Some c →
  ∃ color, colors !! i = Some color ∧ RGB_to_hex [c] = Ok [color].
Proof.
  unfold RGB_to_hex. intros Hcolors Hc.
  destruct (mapM _ RGBlist) as [RGB256|] eqn:Escaled; [|done].
  cbn [mbind result_bind] in Hcolors. injection Hcolors as <-.
  apply mapM_Ok_Forall2 in Escaled.
  destruct (Forall2_lookup_l _ _ _ _ _ Escaled Hc) as (t & Ht & Hscaled).
  eexists. split; [by rewrite list_lookup_fmap, Ht|].
  cbn [mapM]. rewrite Hscaled. done.
Qed.

(** The colours of a map are the colours at the ranks of its keys. *)
Lemma colormap_lookup_rank (values : list Z) (full : list RGB) (k : Z)
    (c : RGB) :
  NoDup values → (length values ≤ length full)%nat →
  dict (zip values full) !! k = Some c →
  ∃ i, values !! i = Some k ∧ full !! i = Some c.
Proof.
  intros Hnodup Hlen Hc.
  apply dict_lookup in Hc; [|by rewrite fst_zip].
  apply list_elem_of_lookup in Hc as [i Hi]. exists i.
  by apply lookup_zip_with_Some in Hi as (? & ? & [= <- <-] & ? & ?).
Qed.

(** X16. With at most 25 distinct ids, no two ids of the list get the same
    string: the colours stay apart when [RGB_to_hex] truncates them to 256
    levels per channel. *)
Theorem colormap_hex_distinct (valuelist : list Z) :
  valuelist ≠ [] →
  Z.of_nat (length (numpy_unique valuelist)) ≤ 25 →
  ∃ colorlookup,
    colormap valuelist = Ok colorlookup ∧
    ∀ k1 k2 c1 c2,
      k1 ≠ k2 → colorlookup !! k1 = Some c1 → colorlookup !! k2 = Some c2 →
      ∃ color1 color2,
        RGB_to_hex [c1] = Ok [color1] ∧ RGB_to_hex [c2] = Ok [color2] ∧
        color1 ≠ color2.
Proof.
  intros Hne Hsmall.
  destruct (colormap_grid valuelist Hne)
    as (perm & full & Hperm & Hleast & Hfit & Hrows & Hlen & Hfull & Hmap);
    [lia|].
  assert (perm ≤ 5) as Hfive by nia.
  pose proof (all_from_spec _ _ _ perm grid_hex_distinct_table) as Hdistinct.
  unfold grid_hex_distinct in Hdistinct. rewrite Hrows in Hdistinct.
  destruct (RGB_to_hex full) as [colors|] eqn:Hcolors;
    [|by discriminate Hdistinct; lia].
  assert (NoDup colors) as Hnodup
    by (apply (proj1 (bool_decide_eq_true _)), Hdistinct; lia).
  eexists. split; [exact Hmap|]. intros k1 k2 c1 c2 Hk H1 H2.
  apply colormap_lookup_rank in H1 as (i & Hi & Hci);
    [|apply numpy_unique_NoDup|lia].
  apply colormap_lookup_rank in H2 as (j & Hj & Hcj);
    [|apply numpy_unique_NoDup|lia].
  destruct (RGB_to_hex_lookup _ _ _ _ Hcolors Hci) as (color1 & Hs1 & ?).
  destruct (RGB_to_hex_lookup _ _ _ _ Hcolors Hcj) as (color2 & Hs2 & ?).
  exists color1, color2. split_and!; [done..|].
  intros <-. assert (i = j) by by eapply NoDup_lookup. congruence.
Qed.

(** X17. The colour map of the cluster ids of a list of features (ids
    within int64, at most 10000 of them distinct) knows the cluster id of every feature of the list:
    with it as [getcolor], the loop of [make_region_drawing] finds a colour
    for every arrow. *)
Theorem colormap_colors_features (seqfeatures : list SeqFeature)
    (ids : list Z) :
  Forall2 (fun feature cluster_id =>
             SeqFeature.qualifiers feature !! "cluster_id" = Some cluster_id)
    seqfeatures ids →
  seqfeatures ≠ [] →
  Forall int64 ids →
  Z.of_nat (length (numpy_unique ids)) ≤ 10000 →
  ∃ getcolor,
    colormap ids = Ok getcolor ∧
    forallb (colored getcolor) seqfeatures = true.
Proof.
  intros Hids Hne _ Hsmall.
  assert (ids ≠ []) as Hids_ne
    by (intros ->; apply Forall2_nil_inv_r in Hids; done).
  destruct (colormap_grid ids Hids_ne Hsmall)
    as (perm & full & Hperm & Hleast & Hfit & _ & Hlen & _ & Hmap).
  eexists. split; [exact Hmap|].
  apply forallb_forall. intros feature Hfeature.
  apply list_elem_of_In, list_elem_of_lookup in Hfeature as [n Hn].
  destruct (Forall2_lookup_l _ _ _ _ _ Hids Hn) as (cluster_id & Hid & Hq).
  unfold colored. rewrite Hq. apply bool_decide_eq_true.
  apply list_elem_of_lookup_2, (proj2 (numpy_unique_elem _ _)),
    list_elem_of_lookup in Hid as [i Hi].
  destruct (colormap_rank (numpy_unique ids) full i cluster_id)
    as (c & _ & Hc); [apply numpy_unique_NoDup|lia|done|].
  by exists c.
Qed.

End ColourGrid.

Lemma colormap_hue_saturation_witness :
  ∃ perm colorlookup c,
    (perm - 1) * (perm - 1) < Z.of_nat (length (numpy_unique [7; 3; -1; 3]))
    ∧ Z.of_nat (length (numpy_unique [7; 3; -1; 3])) ≤ perm * perm ∧
    colormap [7; 3; -1; 3] = Ok colorlookup ∧
    colorlookup !! 7 = Some c ∧
    hsv_to_rgb (float_of_int (Z.of_nat 2 `div` perm) * 1 / float_of_int perm)
      (float_of_int (Z.of_nat 2 `mod` perm) * 1 / float_of_int perm + 0.2)
      0.7
    = Ok c.
Proof.
  apply (colormap_hue_saturation [7; 3; -1; 3] 2 7).
  - compute_done.
  - vm_compute. discriminate.
  - reflexivity.
Defined.

Lemma colormap_smallest_id_witness :
  ∃ colorlookup,
    colormap [7; 3; -1; 3] = Ok colorlookup ∧
    colorlookup !! (-1) = Some first_color ∧
    RGB_to_hex [first_color] = Ok ["#b28e8e"].
Proof.
  apply (colormap_smallest_id [7; 3; -1; 3] (-1)).
  - compute_done.
  - vm_compute. discriminate.
  - rewrite !elem_of_cons. tauto.
  - intros k'. rewrite !elem_of_cons, elem_of_nil. lia.
Defined.

Lemma colormap_in_gamut_witness :
  ∃ colorlookup,
    colormap [7; 3; -1; 3] = Ok colorlookup ∧
    ∀ k c, colorlookup !! k = Some c →
           unit_RGB c ∧
           ∃ color, RGB_to_hex [c] = Ok [color] ∧ hex_of c color.
Proof.
  apply (colormap_in_gamut [7; 3; -1; 3]).
  - discriminate.
  - vm_compute. discriminate.
Defined.

Lemma colormap_out_of_gamut_witness :
  ∃ colorlookup k c r g b,
    colormap (seqZ 100 26) = Ok colorlookup ∧
    k ∈ seqZ 100 26 ∧ colorlookup !! k = Some c ∧
    PrimFloat.ltb c.2 0 = true ∧
    to_int (c.2 * 255)%float = Ok b ∧ b < 0 ∧
    RGB_to_hex [c]
    = Ok ["#" +:+ format_02x r +:+ format_02x g +:+ "-" +:+ hex (- b)].
Proof.
  apply (colormap_out_of_gamut (seqZ 100 26)).
  - compute_done.
  - split; vm_compute; discriminate.
Defined.

Lemma colormap_hex_distinct_witness :
  ∃ colorlookup,
    colormap [7; 3; -1; 3] = Ok colorlookup ∧
    ∀ k1 k2 c1 c2,
      k1 ≠ k2 → colorlookup !! k1 = Some c1 → colorlookup !! k2 = Some c2 →
      ∃ color1 color2,
        RGB_to_hex [c1] = Ok [color1] ∧ RGB_to_hex [c2] = Ok [color2] ∧
        color1 ≠ color2.
Proof.
  apply (colormap_hex_distinct [7; 3; -1; 3]).
  - discriminate.
  - vm_compute. discriminate.
Defined.

Lemma colormap_colors_features_witness :
  ∃ getcolor,
    colormap [12; 7; 3] = Ok getcolor ∧
    forallb (colored getcolor) Operon.features = true.
Proof.
  apply (colormap_colors_features Operon.features [12; 7; 3]).
  - repeat constructor.
  - discriminate.
  - compute_done.
  - vm_compute. discriminate.
Defined.

(** ** The outcomes of the conversion to strings *)

Section HexOutcomes.

Lemma mapM_app {A B} (f : A → result B) (l1 l2 : list A) :
  mapM f (l1 ++ l2) = r1 ← mapM f l1; r2 ← mapM f l2; Ok (r1 ++ r2).
Proof.
  induction l1 as [|x l1 IH].
  { cbn [app]. by destruct (mapM f l2). }
  rewrite <- app_comm_cons, !mapM_cons, IH.
  destruct (f x); [|done]. cbn [mbind result_bind].
  destruct (mapM f l1); [|done]. cbn [mbind result_bind].
  by destruct (mapM f l2).
Qed.

(** X18. The conversion works triple by triple: the strings of two lists put
    together are the strings of the first followed by the strings of the
    second, and the error of the first list that fails otherwise. *)
Theorem RGB_to_hex_app (RGBlist1 RGBlist2 : list RGB) :
  RGB_to_hex (RGBlist1 ++ RGBlist2)
  = colors1 ← RGB_to_hex RGBlist1;
    colors2 ← RGB_to_hex RGBlist2;
    Ok (colors1 ++ colors2).
Proof.
  unfold RGB_to_hex. rewrite mapM_app.
  destruct (mapM _ RGBlist1) as [RGB256|]; [|done].
  cbn [mbind result_bind].
  destruct (mapM _ RGBlist2) as [RGB256'|]; [|done].
  cbn [mbind result_bind]. by rewrite fmap_app.
Qed.

(** [int] of a finite float returns. *)
Lemma to_int_finite (x : float) :
  is_finite x = true → ∃ z, to_int x = Ok z.
Proof.
  unfold is_finite, to_int, Prim2SF.
  destruct (is_nan x); [done|]. destruct (is_infinity x); [done|]. intros _.
  destruct (is_zero x); [by eexists|].
  destruct (Z.frexp x) as [r exp].
  destruct (shr_fexp _ _ _ _ _) as [shr e'].
  destruct (shr_m shr); by eexists.
Qed.

(** [int] of NaN raises ValueError, [int] of an infinity OverflowError. *)
Lemma to_int_not_finite (x : float) :
  is_finite x = false →
  to_int x = Raise (if is_nan x then ValueError else OverflowError).
Proof.
  unfold is_finite, to_int. intros Hx.
  destruct (is_nan x) eqn:Hnan; [unfold Prim2SF; by rewrite Hnan|].
  destruct (is_infinity x) eqn:Hinf; [|done].
  assert (is_zero x = false) as Hzero.
  { destruct (is_zero x) eqn:Hzero; [|done].
    assert (Prim2SF x = S754_zero (get_sign x)) as Hx0
      by (unfold Prim2SF; by rewrite Hnan, Hzero).
    unfold is_infinity in Hinf.
    rewrite FloatAxioms.eqb_spec, abs_spec, Hx0 in Hinf.
    by vm_compute in Hinf. }
  unfold Prim2SF. by rewrite Hnan, Hzero, Hinf.
Qed.

(** The scaling of one triple. *)
Lemma scale_triple (c : RGB) :
  let n := fun x => to_int (x * 255)%float in
  let scaled :=
    (let '(r, g, b) := c in r ← n r; g ← n g; b ← n b; Ok (r, g, b)) in
  if finite_RGB c then ∃ t, scaled = Ok t
  else scaled = Raise ValueError ∨ scaled = Raise OverflowError.
Proof.
  destruct c as [[r g] b]. cbv zeta. unfold finite_RGB, finite_channel.
  cbn [fst snd].
  destruct (is_finite (r * 255)) eqn:Hr; cbn [andb].
  - destruct (to_int_finite _ Hr) as [r' ->]. cbn [mbind result_bind].
    destruct (is_finite (g * 255)) eqn:Hg; cbn [andb].
    + destruct (to_int_finite _ Hg) as [g' ->]. cbn [mbind result_bind].
      destruct (is_finite (b * 255)) eqn:Hb.
      * destruct (to_int_finite _ Hb) as [b' ->]. by eexists.
      * rewrite (to_int_not_finite _ Hb).
        destruct (is_nan _); [by left|by right].
    + rewrite (to_int_not_finite _ Hg).
      destruct (is_nan _); [by left|by right].
  - rewrite (to_int_not_finite _ Hr).
    destruct (is_nan _); [by left|by right].
Qed.

(** X19. [RGB_to_hex] returns exactly when every channel of every triple,
    scaled by 255, is a finite float, and then it returns one string per
    triple; when some scaled channel is NaN or infinite it raises ValueError
    or OverflowError, the errors of [int], and nothing else. *)
Theorem RGB_to_hex_outcome (RGBlist : list RGB) :
  if forallb finite_RGB RGBlist
  then ∃ colors, RGB_to_hex RGBlist = Ok colors ∧
                 length colors = length RGBlist
  else RGB_to_hex RGBlist = Raise ValueError ∨
       RGB_to_hex RGBlist = Raise OverflowError.
Proof.
  unfold RGB_to_hex.
  induction RGBlist as [|c l IH]; [by eexists|].
  cbn [forallb]. rewrite mapM_cons.
  pose proof (scale_triple c) as Hc. cbv zeta in Hc.
  destruct c as [[r g] b].
  destruct (finite_RGB (r, g, b)); cbn [andb].
  - destruct Hc as [t ->]. cbn [mbind result_bind].
    destruct (forallb finite_RGB l).
    + destruct IH as (colors & Hcolors & Hlen).
      destruct (mapM _ l) as [RGB256|]; [|done].
      cbn [mbind result_bind] in *. eexists. split; [done|].
      injection Hcolors as <-. rewrite length_fmap in Hlen.
      rewrite length_fmap. cbn [length]. by rewrite Hlen.
    + destruct (mapM _ l) as [RGB256|]; [by destruct IH|].
      cbn [mbind result_bind] in *. done.
  - destruct Hc as [-> | ->]; [by left|by right].
Qed.

End HexOutcomes.
